(** * LaQueue: a queue on top of SQLite, its claim protocol and its worker

    A shallow embedding of [queue/queue.go] and [worker/worker.go], and of
    the three status writes of the TypeScript port, followed by the
    properties of the claim protocol, the status writes, the backoff
    computation and the worker constructor.

    Conventions of the embedding.
    - The [queue_items] table is the list of its rows.  Rows whose
      [scheduled_at] texts are equal come out of [ORDER BY scheduled_at] in
      the order of their ids, the order in which the index on
      [(queue_name, status, scheduled_at)] keeps entries of equal key.
    - The store holds a timestamp as the text that was written: the UTC text
      of [CURRENT_TIMESTAMP] for a column left to its default, the text the
      driver makes of a [time.Time], in the zone of that value and with its
      offset, for a bound parameter.  [scheduled_at <= ?] and
      [ORDER BY scheduled_at] compare these texts byte by byte, as the store
      does; this is the order of the instants among texts of one form and
      offset ([Format_lt]), and not always otherwise.  The Go value of a row
      keeps the text where the driver would parse it into a [time.Time]; the
      texts of a table are taken to be of the forms the driver parses, as
      those written by the statements below are.  Every reading of a clock
      is an explicit argument.
    - Go's [int], [int64] and [time.Duration] are 64 bits wide; their
      arithmetic wraps around and is written with [wrap64].  The [attempts]
      column of the store is an SQL integer and [attempts + 1] is computed by
      the store, where it does not wrap.
    - The only storage failure that is modelled is a handle that was closed:
      every statement on it fails.  A table whose row ids are used up makes
      an insert fail as well. *)

From Stdlib Require Import ZArith List Ascii String Bool Lia OrderedTypeEx.
Import ListNotations.
Open Scope string_scope.
Open Scope list_scope.
Open Scope Z_scope.

(** ** Machine integers of the Go side *)

Definition min_int64 : Z := - 2 ^ 63.
Definition max_int64 : Z := 2 ^ 63 - 1.

(** The two's complement value of [z] cut to 64 bits. *)
Definition wrap64 (z : Z) : Z := (z + 2 ^ 63) mod 2 ^ 64 - 2 ^ 63.

(** The conversion [uint(x)] of an [int]. *)
Definition to_uint (z : Z) : Z := z mod 2 ^ 64.

(** [x << n] on [int64] with an unsigned count: counts of 64 and more give 0. *)
Definition shl64 (x n : Z) : Z :=
  if n <? 64 then wrap64 (Z.shiftl x n) else 0.

(** [a * b] on [int64] (and so on [time.Duration]). *)
Definition mul64 (a b : Z) : Z := wrap64 (a * b).

(** [time.Second], in nanoseconds. *)
Definition Second : Z := 1000000000.

(** ** Timestamps *)

(** Go's [time.Time]: an instant, in nanoseconds since the Unix epoch, and
    the location it is shown in.  A location gives the offset from UTC, in
    seconds east, that is in force at a Unix second. *)
Record Time : Type := mkTime {
  unix_nano : Z;
  loc : Z -> Z
}.

(** [t.Add(d)] *)
Definition Add (t : Time) (d : Z) : Time :=
  mkTime (unix_nano t + d) (loc t).

Definition digit (n : Z) : ascii := ascii_of_N (48 + Z.to_N (n mod 10)).

(** The decimal digits of [n >= 0], without leading zeros. *)
Fixpoint decimal (fuel : nat) (n : Z) : string :=
  match fuel with
  | O => ""
  | S f => (if n <? 10 then "" else decimal f (n / 10)) ++ String (digit n) ""
  end.

(** [0 <= n < 10 ^ width] in [width] digits, the first digit first. *)
Fixpoint digits (width : nat) (n : Z) : string :=
  match width with
  | O => ""
  | S w =>
      String (digit (n / 10 ^ Z.of_nat w)) (digits w (n mod 10 ^ Z.of_nat w))
  end.

(** [n >= 0] in at least [width] digits. *)
Definition padded (width : nat) (n : Z) : string :=
  if n <? 10 ^ Z.of_nat width then digits width n else decimal 24 n.

(** The first [width] decimal places of [n / 10 ^ width] without the zeros
    at the end. *)
Fixpoint places (width : nat) (n : Z) : string :=
  match width with
  | O => ""
  | S w =>
      if n =? 0 then ""
      else String (digit (n / 10 ^ Z.of_nat w))
                  (places w (n mod 10 ^ Z.of_nat w))
  end.

(** Year, month and day of a count of days since 1970-01-01, in the
    proleptic Gregorian calendar. *)
Definition civil_from_days (days : Z) : Z * Z * Z :=
  let z := days + 719468 in
  let era := z / 146097 in
  let doe := z mod 146097 in
  let yoe := (doe - doe / 1460 + doe / 36524 - doe / 146096) / 365 in
  let doy := doe - (365 * yoe + yoe / 4 - yoe / 100) in
  let mp := (5 * doy + 2) / 153 in
  let d := doy - (153 * mp + 2) / 5 + 1 in
  let m := if mp <? 10 then mp + 3 else mp - 9 in
  (yoe + era * 400 + (if m <=? 2 then 1 else 0), m, d).

(** [YYYY-MM-DD] for a count of days since 1970-01-01. *)
Definition date_text (days : Z) : string :=
  let '(y, m, d) := civil_from_days days in
  (if y <? 0 then "-" ++ padded 4 (- y) else padded 4 y)
  ++ "-" ++ padded 2 m ++ "-" ++ padded 2 d.

(** [HH:MM:SS] for a count of seconds since midnight. *)
Definition time_text (r : Z) : string :=
  padded 2 (r / 3600) ++ ":" ++ padded 2 (r mod 3600 / 60) ++ ":"
  ++ padded 2 (r mod 60).

(** [YYYY-MM-DD HH:MM:SS] for a count of seconds since the epoch. *)
Definition clock_text (secs : Z) : string :=
  date_text (secs / 86400) ++ " " ++ time_text (secs mod 86400).

(** [YYYY-MM-DDTHH:mm:ss.sssZ]: [toISOString()] of the JavaScript [Date]
    whose time value is [ms] milliseconds since the epoch. *)
Definition toISOString (ms : Z) : string :=
  date_text (ms / 86400000) ++ "T"
  ++ time_text (ms mod 86400000 / 1000) ++ "." ++ padded 3 (ms mod 1000)
  ++ "Z".

(** The text of SQLite's [CURRENT_TIMESTAMP] when the store's clock reads
    the instant [t]: date and time in UTC, to the second. *)
Definition CURRENT_TIMESTAMP (t : Z) : string :=
  clock_text (t / 1000000000).

(** [-07:00] for an offset in seconds. *)
Definition zone_text (offset : Z) : string :=
  let zone := Z.quot offset 60 in
  (if zone <? 0 then "-" else "+")
  ++ padded 2 (Z.abs zone / 60) ++ ":" ++ padded 2 (Z.abs zone mod 60).

(** The text the driver binds for a [time.Time]: [t.Format] with the layout
    [2006-01-02 15:04:05.999999999-07:00], in the location of [t]. *)
Definition Format (t : Time) : string :=
  let sec := unix_nano t / 1000000000 in
  let nsec := unix_nano t mod 1000000000 in
  let offset := loc t sec in
  clock_text (sec + offset)
  ++ (if nsec =? 0 then "" else "." ++ places 9 nsec)
  ++ zone_text offset.

(** The offset from UTC in force at [t] in the location of [t], and the
    seconds the wall clock of that location shows at [t], counted from
    1970-01-01 00:00:00 of the wall clock. *)
Definition offset_at (t : Time) : Z := loc t (unix_nano t / 1000000000).

Definition wall_clock (t : Time) : Z :=
  unix_nano t / 1000000000 + offset_at t.

(** The last day of the year 9999, in days since 1970-01-01, and the first
    second after that year: up to there a year has four digits. *)
Definition last_day : Z := 2932896.

Definition end_of_years : Z := 253402300800.

(** The date as one number, [YYYYMMDD]. *)
Definition date_key (days : Z) : Z :=
  let '(y, m, d) := civil_from_days days in y * 10000 + m * 100 + d.

(** Whether, over the [n] days from [z] on, month and day are in their
    ranges and the date, read as one number, goes up from each day to the
    next; [prev] is the number of the day before [z]. *)
Fixpoint dates_ascend (n : nat) (z prev : Z) : bool :=
  match n with
  | O => true
  | S k =>
      let '(y, m, d) := civil_from_days z in
      let key := y * 10000 + m * 100 + d in
      (prev <? key) && (1 <=? m) && (m <=? 12) && (1 <=? d) && (d <=? 31)
      && dates_ascend k (z + 1) key
  end.

(** A text that starts with a character below the digits. *)
Definition below_digits (z : string) : Prop :=
  match z with
  | String c _ => (N_of_ascii c < 48)%N
  | EmptyString => False
  end.

(** ** The store *)

Module Queue.

(** [QueueItem] of queue.go; a row of [queue_items] has the same fields. *)
Record QueueItem : Type := mkItem {
  ID : Z;
  QueueName : string;
  Payload : list Byte.byte;
  CreatedAt : string;
  ScheduledAt : string;
  Status : string;
  Attempts : Z;
  LastAttemptAt : option string
}.

(** The handle [*sql.DB] with the table behind it.  [seq] is the largest row
    id that was ever given out (AUTOINCREMENT keeps it in sqlite_sequence). *)
Record DB : Type := mkDB {
  rows : list QueueItem;
  seq : Z;
  closed : bool
}.

Inductive error : Type :=
| ErrNoRows        (* sql.ErrNoRows *)
| ErrClosed        (* sql: database is closed *)
| ErrFull          (* no row id left for an insert *)
| ErrMarshal.      (* json.Marshal failed *)

(** [LaQueue] of queue.go: the handle is the state that is threaded through,
    so the value keeps the queue's name only. *)
Record LaQueue : Type := mkQueue { queueName : string }.

Definition New (name : string) : LaQueue := mkQueue name.

(** *** A state and error monad over the store *)

Definition M (A : Type) : Type := DB -> (error + A) * DB.

Definition ret {A} (a : A) : M A := fun d => (inr a, d).
Definition fail {A} (e : error) : M A := fun d => (inl e, d).
Definition bind {A B} (m : M A) (k : A -> M B) : M B :=
  fun d => match m d with
           | (inl e, d') => (inl e, d')
           | (inr a, d') => k a d'
           end.

Declare Scope db_scope.
Delimit Scope db_scope with db.
Notation "x <- m ;; k" := (bind m (fun x => k))
  (at level 61, m at next level, right associativity) : db_scope.
Notation "m ;;; k" := (bind m (fun _ => k))
  (at level 61, right associativity) : db_scope.
Open Scope db_scope.

(** Every statement first needs a handle that is open. *)
Definition connect : M unit :=
  fun d => if closed d then (inl ErrClosed, d) else (inr tt, d).

(** *** SQL statements of queue.go *)

(** [WHERE id = ? AND queue_name = ?] *)
Definition by_key (id : Z) (name : string) (r : QueueItem) : bool :=
  (ID r =? id) && String.eqb (QueueName r) name.

(** [WHERE queue_name = ? AND status = 'pending' AND scheduled_at <= ?],
    with the text [now] bound to the last parameter: the stored text of
    [scheduled_at] is compared with it byte by byte. *)
Definition eligible (name : string) (now : string) (r : QueueItem) : bool :=
  String.eqb (QueueName r) name && String.eqb (Status r) "pending"
  && String.leb (ScheduledAt r) now.

(** The order of [ORDER BY scheduled_at ASC]: by the text of [scheduled_at],
    and by id among rows of one text. *)
Definition precedes (r m : QueueItem) : bool :=
  match String.compare (ScheduledAt r) (ScheduledAt m) with
  | Lt => true
  | Eq => ID r <=? ID m
  | Gt => false
  end.

(** [ORDER BY scheduled_at ASC LIMIT 1]: the row that precedes the others. *)
Fixpoint first_scheduled (l : list QueueItem) : option QueueItem :=
  match l with
  | [] => None
  | r :: l' =>
      match first_scheduled l' with
      | None => Some r
      | Some m => if precedes r m then Some r else Some m
      end
  end.

(** The SELECT of Dequeue, before the scan into the Go value. *)
Definition select_next (name : string) (now : string) (l : list QueueItem)
  : option QueueItem :=
  first_scheduled (filter (eligible name now) l).

(** [tx.QueryRow(...).Scan(...)]: no row is reported as [sql.ErrNoRows]. *)
Definition QueryRow_next (name : string) (now : string)
  : M (error + QueueItem) :=
  fun d => match select_next name now (rows d) with
           | None => (inr (inl ErrNoRows), d)
           | Some r => (inr (inr r), d)
           end.

(** [UPDATE queue_items SET ... WHERE ...]: every row the predicate accepts
    is rewritten; the result is the number of rows affected. *)
Definition update_rows (p : QueueItem -> bool) (f : QueueItem -> QueueItem)
  : M Z :=
  fun d => (inr (Z.of_nat (List.length (filter p (rows d)))),
            mkDB (map (fun r => if p r then f r else r) (rows d))
                 (seq d) (closed d)).

(** [SET status = 'processing', attempts = attempts + 1, last_attempt_at = ?] *)
Definition set_processing (now : Time) (r : QueueItem) : QueueItem :=
  mkItem (ID r) (QueueName r) (Payload r) (CreatedAt r) (ScheduledAt r)
         "processing" (Attempts r + 1) (Some (Format now)).

(** [SET status = ?] *)
Definition set_status (s : string) (r : QueueItem) : QueueItem :=
  mkItem (ID r) (QueueName r) (Payload r) (CreatedAt r) (ScheduledAt r)
         s (Attempts r) (LastAttemptAt r).

(** [SET status = 'pending', scheduled_at = ?] *)
Definition set_retry (at_ : string) (r : QueueItem) : QueueItem :=
  mkItem (ID r) (QueueName r) (Payload r) (CreatedAt r) at_
         "pending" (Attempts r) (LastAttemptAt r).

(** The largest row id of the table, 0 for an empty one. *)
Definition max_id (l : list QueueItem) : Z :=
  fold_right (fun r m => Z.max (ID r) m) 0 l.

(** [INSERT INTO queue_items (queue_name, payload[, scheduled_at])]: the id is
    one more than the largest id ever used; the columns that are not listed
    take the defaults of the schema ([t] is the text of CURRENT_TIMESTAMP). *)
Definition insert_row (name : string) (payload : list Byte.byte)
    (t scheduled : string) : M Z :=
  fun d =>
    let top := Z.max (seq d) (max_id (rows d)) in
    if max_int64 <=? top then (inl ErrFull, d)
    else
      let id := top + 1 in
      (inr id,
       mkDB (rows d ++ [mkItem id name payload t scheduled "pending" 0 None])
            id (closed d)).

(** *** The methods of LaQueue *)

Section Encoding.

(** [json.Marshal] on the values the caller enqueues. *)
Context {Value : Type} (Marshal : Value -> option (list Byte.byte)).

(** [Enqueue]; [t] is the instant the store's clock reads at the insert. *)
Definition Enqueue (q : LaQueue) (payload : Value) (t : Z) : M Z :=
  match Marshal payload with
  | None => fail ErrMarshal
  | Some payloadBytes =>
      connect ;;;
      insert_row (queueName q) payloadBytes
                 (CURRENT_TIMESTAMP t) (CURRENT_TIMESTAMP t)
  end.

(** [EnqueueWithDelay]; [now] is [time.Now()], [t] the store's clock. *)
Definition EnqueueWithDelay (q : LaQueue) (payload : Value) (delay : Z)
    (now : Time) (t : Z) : M Z :=
  match Marshal payload with
  | None => fail ErrMarshal
  | Some payloadBytes =>
      let scheduledAt := Add now delay in
      connect ;;;
      insert_row (queueName q) payloadBytes
                 (CURRENT_TIMESTAMP t) (Format scheduledAt)
  end.

End Encoding.

(** The Go value that Dequeue returns: the scanned row with the three fields
    it overwrites after the commit ([item.Attempts++] is on [int]). *)
Definition claimed (now : Time) (item : QueueItem) : QueueItem :=
  mkItem (ID item) (QueueName item) (Payload item) (CreatedAt item)
         (ScheduledAt item) "processing" (wrap64 (Attempts item + 1))
         (Some (Format now)).

(** The second half of Dequeue: the UPDATE, the commit and the value that is
    returned.  The result of [tx.Exec] is dropped (bound to [_]). *)
Definition mark_claimed (q : LaQueue) (now : Time) (item : QueueItem)
  : M (option QueueItem) :=
  update_rows (by_key (ID item) (queueName q)) (set_processing now) ;;;
  ret (Some (claimed now item)).

(** [Dequeue]: [None] is the pair (nil, nil) of the Go code.  The statements
    run in one transaction; the rollback that is deferred only ever runs
    before the UPDATE, where there is nothing to undo. *)
Definition Dequeue (q : LaQueue) (now : Time) : M (option QueueItem) :=
  connect ;;;
  r <- QueryRow_next (queueName q) (Format now) ;;
  match r with
  | inl ErrNoRows => ret None
  | inl e => fail e
  | inr item => mark_claimed q now item
  end.

(** The store after the UPDATE of a claim of [item]. *)
Definition after_claim (q : LaQueue) (now : Time) (item : QueueItem) (d : DB)
  : DB :=
  mkDB (map (fun r => if by_key (ID item) (queueName q) r
                      then set_processing now r else r) (rows d))
       (seq d) (closed d).

(** [Complete], [Fail], [RetryWithDelay]: the rows-affected result of
    [db.Exec] is dropped and only the error is returned. *)
Definition Complete (q : LaQueue) (id : Z) : M unit :=
  connect ;;;
  update_rows (by_key id (queueName q)) (set_status "completed") ;;;
  ret tt.

Definition Fail (q : LaQueue) (id : Z) : M unit :=
  connect ;;;
  update_rows (by_key id (queueName q)) (set_status "failed") ;;;
  ret tt.

Definition RetryWithDelay (q : LaQueue) (id : Z) (delay : Z) (now : Time)
  : M unit :=
  let scheduledAt := Add now delay in
  connect ;;;
  update_rows (by_key id (queueName q)) (set_retry (Format scheduledAt)) ;;;
  ret tt.

(** [Size] *)
Definition Size (q : LaQueue) (now : Time) : M Z :=
  connect ;;;
  (fun d => (inr (Z.of_nat (List.length
                              (filter (eligible (queueName q) (Format now))
                                      (rows d)))), d)).

End Queue.

(** ** The worker *)

Module Worker.

(** [ProcessFunc]: the handler returns nil ([None]) or an error. *)
Definition ProcessFunc : Type := list Byte.byte -> option string.

Record Worker : Type := mkWorker {
  queue : Queue.LaQueue;
  queueName : string;
  processFunc : ProcessFunc;
  interval : Z;
  maxRetries : Z
}.

Record Config : Type := mkConfig {
  QueueName : string;
  Interval : Z;
  MaxRetries : Z
}.

(** [New]: the two zero checks rewrite the configuration one after the
    other, then the worker is built from it. *)
Definition New (config : Config) (processFunc : ProcessFunc) : Worker :=
  let config :=
    if Interval config =? 0
    then mkConfig (QueueName config) (5 * Second) (MaxRetries config)
    else config in
  let config :=
    if MaxRetries config =? 0
    then mkConfig (QueueName config) (Interval config) 3
    else config in
  mkWorker (Queue.New (QueueName config)) (QueueName config) processFunc
           (Interval config) (MaxRetries config).

(** [time.Duration(1<<uint(item.Attempts)) * time.Second] *)
Definition backoff (attempts : Z) : Z :=
  mul64 (shl64 1 (to_uint attempts)) Second.

(** The calls a worker makes on its queue, in the order it makes them.  The
    list is a ghost record next to the store: the code keeps no such list. *)
Inductive call : Type :=
| CallDequeue
| CallComplete (id : Z)
| CallFail (id : Z)
| CallRetryWithDelay (id : Z) (delay : Z).

Record World : Type := mkWorld {
  store : Queue.DB;
  calls : list call
}.

(** [processNext]; [now] is the clock read by Dequeue and [later] the clock
    read by RetryWithDelay.  An error of a queue method is logged and
    otherwise dropped, so only the store it leaves behind is kept. *)
Definition processNext (w : Worker) (now later : Time) (s : World)
  : World :=
  let '(r, d) := Queue.Dequeue (queue w) now (store s) in
  let log := calls s ++ [CallDequeue] in
  match r with
  | inl _ => mkWorld d log
  | inr None => mkWorld d log
  | inr (Some item) =>
      match processFunc w (Queue.Payload item) with
      | Some _ =>
          if Queue.Attempts item >=? maxRetries w then
            mkWorld (snd (Queue.Fail (queue w) (Queue.ID item) d))
                    (log ++ [CallFail (Queue.ID item)])
          else
            let delay := backoff (Queue.Attempts item) in
            mkWorld (snd (Queue.RetryWithDelay (queue w) (Queue.ID item)
                                               delay later d))
                    (log ++ [CallRetryWithDelay (Queue.ID item) delay])
      | None =>
          mkWorld (snd (Queue.Complete (queue w) (Queue.ID item) d))
                  (log ++ [CallComplete (Queue.ID item)])
      end
  end.

(** What the [select] of [Start] receives: a tick of the ticker (with the two
    clock readings of the iteration it starts) or the end of the context. *)
Inductive event : Type :=
| Tick (now later : Time)
| Done.

(** [Start]: the loop over the events that arrive; it returns at [Done] and
    waits when nothing more arrives. *)
Fixpoint Start (w : Worker) (evs : list event) (s : World) : World :=
  match evs with
  | [] => s
  | Done :: _ => s
  | Tick now later :: evs' => Start w evs' (processNext w now later s)
  end.

Section Producer.

Context {Value : Type} (Marshal : Value -> option (list Byte.byte)).

(** [Enqueue] and [EnqueueWithDelay] of the worker hand over to its queue. *)
Definition Enqueue (w : Worker) (payload : Value) (t : Z) : Queue.M Z :=
  Queue.Enqueue Marshal (queue w) payload t.

Definition EnqueueWithDelay (w : Worker) (payload : Value) (delay : Z)
    (now : Time) (t : Z) : Queue.M Z :=
  Queue.EnqueueWithDelay Marshal (queue w) payload delay now t.

End Producer.

End Worker.

(** ** The status writes of the TypeScript port *)

Module TS.

Import Queue.

(** [complete], [fail] and [retryWithDelay] of the class [LaQueue] in the
    TypeScript sources: the same UPDATE statements, and [result.changes > 0]
    as the value returned.  A closed handle makes the statement throw.
    [now] is [Date.now()], in milliseconds, as is the delay; the text that
    is written is that of [toISOString()]. *)
Definition complete (q : Queue.LaQueue) (id : Z) : Queue.M bool :=
  (Queue.connect ;;;
   changes <- Queue.update_rows (Queue.by_key id (Queue.queueName q))
                                (Queue.set_status "completed") ;;
   Queue.ret (changes >? 0))%db.

Definition fail (q : Queue.LaQueue) (id : Z) : Queue.M bool :=
  (Queue.connect ;;;
   changes <- Queue.update_rows (Queue.by_key id (Queue.queueName q))
                                (Queue.set_status "failed") ;;
   Queue.ret (changes >? 0))%db.

Definition retryWithDelay (q : Queue.LaQueue) (id : Z) (delay : Z)
    (now : Z) : Queue.M bool :=
  let scheduledAt := toISOString (now + delay) in
  (Queue.connect ;;;
   changes <- Queue.update_rows (Queue.by_key id (Queue.queueName q))
                                (Queue.set_retry scheduledAt) ;;
   Queue.ret (changes >? 0))%db.

End TS.

(** ** Sequences of queue operations *)

Section Operations.

Context {Value : Type} (Marshal : Value -> option (list Byte.byte)).

(** One call of a method of a queue handle, with the clock readings the call
    makes. *)
Inductive op : Type :=
| OpEnqueue (q : Queue.LaQueue) (payload : Value) (t : Z)
| OpEnqueueWithDelay (q : Queue.LaQueue) (payload : Value) (delay : Z)
                     (now : Time) (t : Z)
| OpDequeue (q : Queue.LaQueue) (now : Time)
| OpComplete (q : Queue.LaQueue) (id : Z)
| OpFail (q : Queue.LaQueue) (id : Z)
| OpRetryWithDelay (q : Queue.LaQueue) (id : Z) (delay : Z) (now : Time)
| OpSize (q : Queue.LaQueue) (now : Time).

(** The store a call leaves behind. *)
Definition step (o : op) (d : Queue.DB) : Queue.DB :=
  match o with
  | OpEnqueue q payload t => snd (Queue.Enqueue Marshal q payload t d)
  | OpEnqueueWithDelay q payload delay now t =>
      snd (Queue.EnqueueWithDelay Marshal q payload delay now t d)
  | OpDequeue q now => snd (Queue.Dequeue q now d)
  | OpComplete q id => snd (Queue.Complete q id d)
  | OpFail q id => snd (Queue.Fail q id d)
  | OpRetryWithDelay q id delay now =>
      snd (Queue.RetryWithDelay q id delay now d)
  | OpSize q now => snd (Queue.Size q now d)
  end.

Definition run (ops : list op) (d : Queue.DB) : Queue.DB :=
  fold_left (fun d o => step o d) ops d.

(** Whether the call [o] on the store [d] claims the row [r]: it is a
    Dequeue on an open handle whose SELECT finds a row with the id of [r] in
    the queue of [r]. *)
Definition claims (o : op) (d : Queue.DB) (r : Queue.QueueItem) : bool :=
  match o with
  | OpDequeue q now =>
      negb (Queue.closed d) &&
      match Queue.select_next (Queue.queueName q) (Format now)
                              (Queue.rows d) with
      | Some item => Queue.by_key (Queue.ID item) (Queue.queueName q) r
      | None => false
      end
  | _ => false
  end.

End Operations.

(** The number of Dequeue calls in a record of calls. *)
Definition dequeues (l : list Worker.call) : nat :=
  List.length (filter (fun c => match c with
                                | Worker.CallDequeue => true
                                | _ => false
                                end) l).

(** The largest row id in use or given out so far; an insert returns the
    next one. *)
Definition top (d : Queue.DB) : Z :=
  Z.max (Queue.seq d) (Queue.max_id (Queue.rows d)).

(** No row with the id [id] in the queue [name] is pending, and [id] is not
    an id that an insert can still give out. *)
Definition retired (name : string) (id : Z) (d : Queue.DB) : Prop :=
  id <= top d /\
  forall r, In r (Queue.rows d) -> Queue.ID r = id ->
            Queue.QueueName r = name -> Queue.Status r <> "pending".

(** The row [r1] has the fields of [r] that no statement of queue.go
    writes. *)
Definition same_identity (r r1 : Queue.QueueItem) : Prop :=
  Queue.ID r1 = Queue.ID r /\ Queue.QueueName r1 = Queue.QueueName r /\
  Queue.Payload r1 = Queue.Payload r /\
  Queue.CreatedAt r1 = Queue.CreatedAt r.

Section Calls_on_queues.

Context {Value : Type}.

(** The queue handle a call is made on. *)
Definition op_queue (o : @op Value) : Queue.LaQueue :=
  match o with
  | OpEnqueue q _ _ => q
  | OpEnqueueWithDelay q _ _ _ _ => q
  | OpDequeue q _ => q
  | OpComplete q _ => q
  | OpFail q _ => q
  | OpRetryWithDelay q _ _ _ => q
  | OpSize q _ => q
  end.

(** Whether a call is a RetryWithDelay of the id [id] in the queue [name]. *)
Definition is_retry_of (name : string) (id : Z) (o : @op Value) : bool :=
  match o with
  | OpRetryWithDelay q id' _ _ =>
      String.eqb (Queue.queueName q) name && (id' =? id)
  | _ => false
  end.

End Calls_on_queues.

(** ** Stores used as examples *)

Module Sample.

Definition jobs : Queue.LaQueue := Queue.New "jobs".

(** Midnight of 2024-01-01 in UTC, and the instant [s] seconds after it. *)
Definition midnight : Z := 1704067200 * Second.

Definition instant (s : Z) : Z := midnight + s * Second.

(** The clock, [s] seconds after [midnight], of a process whose zone is
    UTC, and of a process whose zone is five hours west of it. *)
Definition utc (s : Z) : Time := mkTime (instant s) (fun _ => 0).

Definition west (s : Z) : Time := mkTime (instant s) (fun _ => -18000).

(** A clock in a zone that is four hours west of UTC until 06:00:00 UTC of
    2024-11-03, and five hours from then on, read [ns] nanoseconds after
    that change. *)
Definition fall_back : Z := 1730613600.

Definition eastern (ns : Z) : Time :=
  mkTime (fall_back * Second + ns)
         (fun sec => if sec <? fall_back then -14400 else -18000).

(** The text of CURRENT_TIMESTAMP [s] seconds after [midnight]. *)
Definition stamp (s : Z) : string := CURRENT_TIMESTAMP (instant s).

(** A row of the queue "jobs" with an empty payload, inserted at [midnight]
    and scheduled [scheduled] seconds after it. *)
Definition job (id scheduled : Z) (status : string) (attempts : Z)
  : Queue.QueueItem :=
  Queue.mkItem id "jobs" [] (stamp 0) (stamp scheduled) status attempts None.

(** One row, pending and due. *)
Definition one_pending : Queue.DB :=
  Queue.mkDB [job 1 0 "pending" 0] 1 false.

(** Two pending rows scheduled for the same second. *)
Definition tied : Queue.DB :=
  Queue.mkDB [job 1 0 "pending" 0; job 2 0 "pending" 0] 2 false.

(** A row that was claimed once and retried, and a row of another queue. *)
Definition mixed : Queue.DB :=
  Queue.mkDB [job 1 3 "pending" 1;
              Queue.mkItem 2 "mail" [] (stamp 0) (stamp 0) "pending" 0 None;
              job 3 9 "completed" 1] 3 false.

(** One older item, with payload "a", pending and due since [midnight]. *)
Definition backlog : Queue.DB :=
  Queue.mkDB [Queue.mkItem 1 "jobs" [Byte.x61] (stamp 0) (stamp 0)
                           "pending" 0 None] 1 false.

(** Payloads that are bytes already, encoded as themselves. *)
Definition raw : list Byte.byte -> option (list Byte.byte) := @Some _.

(** A table without rows behind an open handle. *)
Definition fresh : Queue.DB := Queue.mkDB [] 0 false.

End Sample.

(** * Properties *)

Import Queue.

(** ** The order of ORDER BY *)

(** *** The order of texts *)

Lemma compare_refl (s : string) : String.compare s s = Eq.
Proof. apply String_as_OT.cmp_eq. reflexivity. Qed.

Lemma compare_lt_trans (a b c : string) :
  String.compare a b = Lt -> String.compare b c = Lt ->
  String.compare a c = Lt.
Proof.
  intros H1 H2. apply String_as_OT.cmp_lt.
  apply String_as_OT.cmp_lt in H1. apply String_as_OT.cmp_lt in H2.
  exact (String_as_OT.lt_trans _ _ _ H1 H2).
Qed.

Lemma compare_gt_lt (a b : string) :
  String.compare a b = Gt -> String.compare b a = Lt.
Proof.
  intros H. rewrite String.compare_antisym, H. reflexivity.
Qed.

Lemma leb_refl (s : string) : String.leb s s = true.
Proof. unfold String.leb. rewrite compare_refl. reflexivity. Qed.

Lemma leb_trans (a b c : string) :
  String.leb a b = true -> String.leb b c = true -> String.leb a c = true.
Proof.
  unfold String.leb. intros H1 H2.
  destruct (String.compare a b) eqn:C1; try discriminate;
    destruct (String.compare b c) eqn:C2; try discriminate.
  - apply String_as_OT.cmp_eq in C1. subst b. rewrite C2. reflexivity.
  - apply String_as_OT.cmp_eq in C1. subst b. rewrite C2. reflexivity.
  - apply String_as_OT.cmp_eq in C2. subst c. rewrite C1. reflexivity.
  - rewrite (compare_lt_trans _ _ _ C1 C2). reflexivity.
Qed.

(** A text that is not at or before another one is strictly after it. *)
Lemma leb_false (a b : string) :
  String.leb a b = false -> String.ltb b a = true.
Proof.
  unfold String.leb, String.ltb.
  destruct (String.compare a b) eqn:C; try discriminate.
  intros _. rewrite (compare_gt_lt _ _ C). reflexivity.
Qed.

Lemma ltb_leb (a b : string) :
  String.ltb a b = true -> String.leb a b = true.
Proof.
  unfold String.leb, String.ltb.
  destruct (String.compare a b); intros H; (discriminate || reflexivity).
Qed.

(** *** The texts of clock readings

    Fields of a fixed width sort as the numbers they show.  The calendar is
    checked day by day over the 400 years after which it repeats; with it,
    the texts of two clock readings between the years 1970 and 9999 sort as
    the readings do. *)

Lemma ascii_compare_refl (c : ascii) : Ascii.compare c c = Eq.
Proof. unfold Ascii.compare. apply N.compare_refl. Qed.

Lemma compare_app_eq (a x y : string) :
  String.compare (a ++ x) (a ++ y) = String.compare x y.
Proof.
  induction a as [|c a IH]; simpl; [reflexivity|].
  rewrite ascii_compare_refl. exact IH.
Qed.

Lemma leb_prefix (s x : string) : String.leb s (s ++ x) = true.
Proof.
  unfold String.leb. induction s as [|c s IH]; simpl.
  - destruct x; reflexivity.
  - rewrite ascii_compare_refl. exact IH.
Qed.

Lemma N_of_digit (n : Z) : N_of_ascii (digit n) = (48 + Z.to_N (n mod 10))%N.
Proof.
  unfold digit. apply N_ascii_embedding.
  assert (0 <= n mod 10 < 10) by (apply Z.mod_pos_bound; lia). lia.
Qed.

Lemma digit_lt (a b : Z) :
  0 <= a -> a < b -> b < 10 -> Ascii.compare (digit a) (digit b) = Lt.
Proof.
  intros Ha Hab Hb. unfold Ascii.compare. rewrite !N_of_digit.
  rewrite !Z.mod_small by lia. apply N.compare_lt_iff. lia.
Qed.

(** Numbers of one width sort as they count, whatever follows them. *)
Lemma digits_lt (w : nat) (a b : Z) (x y : string) :
  0 <= a -> a < b -> b < 10 ^ Z.of_nat w ->
  String.compare (digits w a ++ x) (digits w b ++ y) = Lt.
Proof.
  revert a b. induction w as [|w IH]; intros a b Ha Hab Hb.
  - simpl in Hb. lia.
  - rewrite Nat2Z.inj_succ, Z.pow_succ_r in Hb by lia.
    assert (Hp : 0 < 10 ^ Z.of_nat w) by (apply Z.pow_pos_nonneg; lia).
    simpl digits. simpl append. cbn [String.compare].
    assert (Hq : a / 10 ^ Z.of_nat w <= b / 10 ^ Z.of_nat w)
      by (apply Z.div_le_mono; lia).
    assert (Hqa : 0 <= a / 10 ^ Z.of_nat w) by (apply Z.div_pos; lia).
    assert (Hqb : b / 10 ^ Z.of_nat w < 10)
      by (apply Z.div_lt_upper_bound; lia).
    destruct (Z.eq_dec (a / 10 ^ Z.of_nat w) (b / 10 ^ Z.of_nat w)) as [E|E].
    + rewrite E, ascii_compare_refl. apply IH.
      * apply Z.mod_pos_bound. exact Hp.
      * pose proof (Z.div_mod a (10 ^ Z.of_nat w)).
        pose proof (Z.div_mod b (10 ^ Z.of_nat w)). rewrite E in *. lia.
      * apply Z.mod_pos_bound. exact Hp.
    + rewrite digit_lt by lia. reflexivity.
Qed.

Lemma below_digit (c : ascii) (n : Z) :
  (N_of_ascii c < 48)%N -> Ascii.compare c (digit n) = Lt.
Proof.
  intros H. unfold Ascii.compare. rewrite N_of_digit.
  apply N.compare_lt_iff. lia.
Qed.

Lemma places_lt (w : nat) (a b : Z) (z z' : string) :
  0 <= a -> a < b -> b < 10 ^ Z.of_nat w -> below_digits z ->
  String.compare (places w a ++ z) (places w b ++ z') = Lt.
Proof.
  revert a b. induction w as [|w IH]; intros a b Ha Hab Hb Hz.
  - simpl in Hb. lia.
  - rewrite Nat2Z.inj_succ, Z.pow_succ_r in Hb by lia.
    assert (Hp : 0 < 10 ^ Z.of_nat w) by (apply Z.pow_pos_nonneg; lia).
    cbn [places].
    replace (b =? 0) with false by (symmetry; apply Z.eqb_neq; lia).
    destruct (a =? 0) eqn:Ea.
    + destruct z as [|c z]; [destruct Hz|]. simpl.
      rewrite below_digit by exact Hz. reflexivity.
    + apply Z.eqb_neq in Ea. simpl append. cbn [String.compare].
      assert (Hq : a / 10 ^ Z.of_nat w <= b / 10 ^ Z.of_nat w)
        by (apply Z.div_le_mono; lia).
      assert (Hqa : 0 <= a / 10 ^ Z.of_nat w) by (apply Z.div_pos; lia).
      assert (Hqb : b / 10 ^ Z.of_nat w < 10)
        by (apply Z.div_lt_upper_bound; lia).
      destruct (Z.eq_dec (a / 10 ^ Z.of_nat w) (b / 10 ^ Z.of_nat w))
        as [E|E].
      * rewrite E, ascii_compare_refl. apply IH; trivial.
        -- apply Z.mod_pos_bound. exact Hp.
        -- pose proof (Z.div_mod a (10 ^ Z.of_nat w)).
           pose proof (Z.div_mod b (10 ^ Z.of_nat w)). rewrite E in *. lia.
        -- apply Z.mod_pos_bound. exact Hp.
      * rewrite digit_lt by lia. reflexivity.
Qed.

Lemma dates_ascend_spec (n : nat) (z prev : Z) :
  dates_ascend n z prev = true ->
  forall i, z <= i < z + Z.of_nat n ->
    (let '(y, m, d) := civil_from_days i in 1 <= m <= 12 /\ 1 <= d <= 31) /\
    (i + 1 < z + Z.of_nat n -> date_key i < date_key (i + 1)).
Proof.
  revert z prev. induction n as [|n IH]; intros z prev H i Hi;
    [simpl in Hi; lia|].
  cbn [dates_ascend] in H.
  destruct (civil_from_days z) as [[y m] d] eqn:E.
  rewrite !andb_true_iff, !Z.leb_le in H.
  destruct H as [[[[[_ Hm1] Hm2] Hd1] Hd2] Hrest].
  destruct (Z.eq_dec i z) as [->|Hne].
  - rewrite E. split; [lia|]. intros Hnext.
    destruct n as [|n]; [simpl in Hnext; lia|].
    cbn [dates_ascend] in Hrest. unfold date_key. rewrite E.
    destruct (civil_from_days (z + 1)) as [[y' m'] d'].
    rewrite !andb_true_iff, Z.ltb_lt in Hrest. lia.
  - destruct (IH (z + 1) _ Hrest i) as [Hb Hs]; [lia|].
    split; [exact Hb|]. intros Hnext. apply Hs. lia.
Qed.

(** The 400 years from 0000-03-01 on, and the day after them. *)
Lemma era_checked :
  dates_ascend (Z.to_nat 146098) (-719468) 0 = true.
Proof. vm_compute. reflexivity. Qed.

Lemma era_days (doe : Z) :
  0 <= doe < 146097 ->
  (let '(y, m, d) := civil_from_days (doe - 719468) in
   1 <= m <= 12 /\ 1 <= d <= 31) /\
  date_key (doe - 719468) < date_key (doe + 1 - 719468).
Proof.
  intros H.
  destruct (dates_ascend_spec _ _ _ era_checked (doe - 719468)) as [Hb Hs].
  - rewrite Z2Nat.id; lia.
  - split; [exact Hb|].
    replace (doe + 1 - 719468) with (doe - 719468 + 1) by lia.
    apply Hs. rewrite Z2Nat.id; lia.
Qed.

Lemma padded_digits (w : nat) (n : Z) :
  n < 10 ^ Z.of_nat w -> padded w n = digits w n.
Proof.
  intros H. unfold padded.
  replace (n <? 10 ^ Z.of_nat w) with true; [reflexivity|].
  symmetry. apply Z.ltb_lt. exact H.
Qed.

Lemma civil_era (days : Z) :
  civil_from_days days
  = let '(y, m, d) :=
      civil_from_days ((days + 719468) mod 146097 - 719468) in
    (y + 400 * ((days + 719468) / 146097), m, d).
Proof.
  unfold civil_from_days.
  replace ((days + 719468) mod 146097 - 719468 + 719468)
    with ((days + 719468) mod 146097) by lia.
  rewrite Z.mod_mod by lia.
  rewrite (Z.div_small ((days + 719468) mod 146097) 146097)
    by (apply Z.mod_pos_bound; lia).
  cbv zeta. f_equal. f_equal. lia.
Qed.

Lemma date_key_era (days : Z) :
  date_key days
  = date_key ((days + 719468) mod 146097 - 719468)
    + 4000000 * ((days + 719468) / 146097).
Proof.
  unfold date_key. rewrite (civil_era days).
  destruct (civil_from_days ((days + 719468) mod 146097 - 719468))
    as [[y m] d].
  lia.
Qed.

Lemma civil_month_day (days : Z) :
  let '(y, m, d) := civil_from_days days in 1 <= m <= 12 /\ 1 <= d <= 31.
Proof.
  rewrite (civil_era days).
  assert (H : 0 <= (days + 719468) mod 146097 < 146097)
    by (apply Z.mod_pos_bound; lia).
  destruct (era_days _ H) as [C _].
  destruct (civil_from_days ((days + 719468) mod 146097 - 719468))
    as [[y m] d].
  exact C.
Qed.

Lemma date_key_next (days : Z) : date_key days < date_key (days + 1).
Proof.
  assert (H : 0 <= (days + 719468) mod 146097 < 146097)
    by (apply Z.mod_pos_bound; lia).
  destruct (era_days _ H) as [_ C].
  rewrite (date_key_era days).
  pose proof (Z.div_mod (days + 719468) 146097) as E.
  set (e := (days + 719468) / 146097) in *.
  set (r := (days + 719468) mod 146097) in *.
  rewrite (date_key_era (r + 1 - 719468)) in C.
  rewrite (date_key_era (days + 1)).
  replace (days + 1 + 719468) with (r + 1 + e * 146097) by lia.
  replace (r + 1 - 719468 + 719468) with (r + 1) in C by lia.
  rewrite Z.mod_add, Z.div_add by lia. lia.
Qed.

Lemma date_key_lt (a b : Z) : a < b -> date_key a < date_key b.
Proof.
  intros H. replace b with (a + 1 + (b - a - 1)) by lia.
  assert (Hn : 0 <= b - a - 1) by lia.
  generalize dependent (b - a - 1). intros n Hn.
  pattern n. apply natlike_ind; trivial.
  - rewrite Z.add_0_r. apply date_key_next.
  - intros x Hx IH. pose proof (date_key_next (a + 1 + x)).
    replace (a + 1 + Z.succ x) with (a + 1 + x + 1) by lia. lia.
Qed.

Lemma append_assoc (a b c : string) :
  ((a ++ b) ++ c = a ++ (b ++ c))%string.
Proof.
  induction a as [|x a IH]; simpl; [reflexivity | rewrite IH; reflexivity].
Qed.

(** Three numbers, each in its width, with separators between them: the
    texts sort as the triples do, whatever follows them. *)
Lemma fields_lt (w1 w2 w3 : nat) (s s' : string) (a1 b1 c1 a2 b2 c2 : Z)
    (x y : string) :
  0 <= a1 -> a2 < 10 ^ Z.of_nat w1 ->
  0 <= b1 -> b2 < 10 ^ Z.of_nat w2 ->
  0 <= c1 -> c2 < 10 ^ Z.of_nat w3 ->
  a1 < a2 \/ (a1 = a2 /\ (b1 < b2 \/ (b1 = b2 /\ c1 < c2))) ->
  String.compare
    ((digits w1 a1 ++ s ++ digits w2 b1 ++ s' ++ digits w3 c1) ++ x)
    ((digits w1 a2 ++ s ++ digits w2 b2 ++ s' ++ digits w3 c2) ++ y) = Lt.
Proof.
  intros Ha1 Ha2 Hb1 Hb2 Hc1 Hc2 H. rewrite !append_assoc.
  destruct H as [H|[-> [H|[-> H]]]].
  - apply digits_lt; assumption.
  - rewrite !compare_app_eq. apply digits_lt; assumption.
  - rewrite !compare_app_eq. apply digits_lt; assumption.
Qed.

Lemma time_text_lt (r1 r2 : Z) (x y : string) :
  0 <= r1 -> r1 < r2 -> r2 < 86400 ->
  String.compare (time_text r1 ++ x) (time_text r2 ++ y) = Lt.
Proof.
  intros H1 H12 H2. unfold time_text.
  rewrite !padded_digits by (change (10 ^ Z.of_nat 2) with 100;
                             Z.div_mod_to_equations; lia).
  apply fields_lt; change (10 ^ Z.of_nat 2) with 100;
    Z.div_mod_to_equations; lia.
Qed.

Lemma date_text_lt (d1 d2 : Z) (x y : string) :
  0 <= d1 -> d1 < d2 -> d2 <= last_day ->
  String.compare (date_text d1 ++ x) (date_text d2 ++ y) = Lt.
Proof.
  intros H1 H12 H2. unfold date_text.
  pose proof (date_key_lt d1 d2 H12) as K.
  assert (K1 : date_key 0 <= date_key d1).
  { destruct (Z.eq_dec d1 0) as [->|N]; [lia|].
    pose proof (date_key_lt 0 d1). lia. }
  assert (K2 : date_key d2 <= date_key last_day).
  { destruct (Z.eq_dec d2 last_day) as [->|N]; [lia|].
    pose proof (date_key_lt d2 last_day). lia. }
  change (date_key 0) with 19700101 in K1.
  change (date_key last_day) with 99991231 in K2.
  pose proof (civil_month_day d1) as B1.
  pose proof (civil_month_day d2) as B2.
  unfold date_key in K, K1, K2.
  destruct (civil_from_days d1) as [[y1 m1] dd1].
  destruct (civil_from_days d2) as [[y2 m2] dd2].
  replace (y1 <? 0) with false by (symmetry; apply Z.ltb_ge; lia).
  replace (y2 <? 0) with false by (symmetry; apply Z.ltb_ge; lia).
  rewrite !padded_digits
    by (change (10 ^ Z.of_nat 2) with 100;
        change (10 ^ Z.of_nat 4) with 10000; lia).
  apply fields_lt; change (10 ^ Z.of_nat 2) with 100;
    change (10 ^ Z.of_nat 4) with 10000; lia.
Qed.

(** Within the years 1970 to 9999 the texts of two clock readings sort as
    the readings do, whatever follows them. *)
Lemma clock_text_lt (s1 s2 : Z) (x y : string) :
  0 <= s1 -> s1 < s2 -> s2 < end_of_years ->
  String.compare (clock_text s1 ++ x) (clock_text s2 ++ y) = Lt.
Proof.
  unfold end_of_years. intros H1 H12 H2. unfold clock_text.
  rewrite !append_assoc.
  destruct (Z.eq_dec (s1 / 86400) (s2 / 86400)) as [E|E].
  - rewrite E, !compare_app_eq. apply time_text_lt;
      Z.div_mod_to_equations; lia.
  - apply date_text_lt; unfold last_day; Z.div_mod_to_equations; lia.
Qed.

Lemma zone_text_sign (o : Z) :
  exists c rest, zone_text o = String c rest /\ (c = "-" \/ c = "+")%char.
Proof.
  unfold zone_text. destruct (Z.quot o 60 <? 0); simpl; eauto.
Qed.

(** In one offset, and within the years 1970 to 9999 of the wall clock, the
    texts of two instants sort as the instants do. *)
Lemma Format_lt (a b : Time) :
  offset_at a = offset_at b ->
  0 <= wall_clock a -> wall_clock b < end_of_years ->
  unix_nano a < unix_nano b ->
  String.compare (Format a) (Format b) = Lt.
Proof.
  unfold wall_clock, offset_at, Format. intros Ho Ha Hb Hab.
  set (o := loc b (unix_nano b / 1000000000)) in *. rewrite Ho in *.
  assert (Hs : unix_nano a / 1000000000 <= unix_nano b / 1000000000)
    by (apply Z.div_le_mono; lia).
  destruct (Z.eq_dec (unix_nano a / 1000000000) (unix_nano b / 1000000000))
    as [E|E].
  - rewrite E, compare_app_eq.
    assert (Hn : 0 <= unix_nano a mod 1000000000
                 < unix_nano b mod 1000000000 /\
                 unix_nano b mod 1000000000 < 1000000000)
      by (Z.div_mod_to_equations; lia).
    replace (unix_nano b mod 1000000000 =? 0) with false
      by (symmetry; apply Z.eqb_neq; lia).
    destruct (zone_text_sign o) as (c & rest & Hz & Hc).
    destruct (unix_nano a mod 1000000000 =? 0) eqn:Ez.
    + rewrite Hz. destruct Hc as [-> | ->]; reflexivity.
    + apply Z.eqb_neq in Ez. rewrite !append_assoc.
      rewrite compare_app_eq. apply places_lt; try lia.
      rewrite Hz. destruct Hc as [-> | ->]; reflexivity.
  - apply clock_text_lt; lia.
Qed.

Lemma append_empty_r (s : string) : (s ++ "")%string = s.
Proof.
  induction s as [|c s IH]; simpl; [reflexivity | rewrite IH; reflexivity].
Qed.

(** In a zone at or east of UTC the text of CURRENT_TIMESTAMP sorts at or
    before the text of a [time.Time] read at the same instant or later. *)
Lemma CURRENT_TIMESTAMP_leb_Format (t : Z) (now : Time) :
  0 <= t -> t <= unix_nano now -> 0 <= offset_at now ->
  wall_clock now < end_of_years ->
  String.leb (CURRENT_TIMESTAMP t) (Format now) = true.
Proof.
  unfold wall_clock, offset_at, CURRENT_TIMESTAMP, Format.
  intros Ht Hle Ho Hend.
  set (o := loc now (unix_nano now / 1000000000)) in *.
  assert (Hs : t / 1000000000 <= unix_nano now / 1000000000)
    by (apply Z.div_le_mono; lia).
  assert (H0 : 0 <= t / 1000000000) by (apply Z.div_pos; lia).
  destruct (Z.eq_dec (t / 1000000000) (unix_nano now / 1000000000 + o))
    as [E|E].
  - rewrite E. apply leb_prefix.
  - unfold String.leb.
    rewrite <- (append_empty_r (clock_text (t / 1000000000))).
    rewrite clock_text_lt by lia. reflexivity.
Qed.

(** While the wall clock of a [time.Time] shows less than the UTC clock
    read for CURRENT_TIMESTAMP, as it does in a zone west of UTC for a
    reading made soon after, the text of CURRENT_TIMESTAMP sorts after the
    text of the [time.Time]. *)
Lemma CURRENT_TIMESTAMP_after_Format (t : Z) (now : Time) :
  0 <= wall_clock now -> wall_clock now < t / 1000000000 ->
  t / 1000000000 < end_of_years ->
  String.leb (CURRENT_TIMESTAMP t) (Format now) = false.
Proof.
  unfold wall_clock, offset_at, CURRENT_TIMESTAMP, Format.
  intros H0 Hlt Hend.
  unfold String.leb. rewrite String.compare_antisym.
  rewrite <- (append_empty_r (clock_text (t / 1000000000))).
  rewrite clock_text_lt by lia. reflexivity.
Qed.

(** *** The order of rows *)

Lemma precedes_refl (r : QueueItem) : precedes r r = true.
Proof. unfold precedes. rewrite compare_refl. apply Z.leb_refl. Qed.

Lemma precedes_total (r m : QueueItem) :
  precedes r m = false -> precedes m r = true.
Proof.
  unfold precedes.
  rewrite (String.compare_antisym (ScheduledAt r) (ScheduledAt m)).
  destruct (String.compare (ScheduledAt m) (ScheduledAt r)); simpl;
    try discriminate; [|reflexivity].
  intros H. apply Z.leb_gt in H. apply Z.leb_le. lia.
Qed.

Lemma precedes_trans (a b c : QueueItem) :
  precedes a b = true -> precedes b c = true -> precedes a c = true.
Proof.
  unfold precedes. intros H1 H2.
  destruct (String.compare (ScheduledAt a) (ScheduledAt b)) eqn:C1;
    try discriminate;
    destruct (String.compare (ScheduledAt b) (ScheduledAt c)) eqn:C2;
    try discriminate.
  - apply String_as_OT.cmp_eq in C1. rewrite C1, C2.
    apply Z.leb_le in H1. apply Z.leb_le in H2. apply Z.leb_le. lia.
  - apply String_as_OT.cmp_eq in C1. rewrite C1, C2. reflexivity.
  - apply String_as_OT.cmp_eq in C2. rewrite <- C2, C1. reflexivity.
  - rewrite (compare_lt_trans _ _ _ C1 C2). reflexivity.
Qed.


Lemma precedes_leb (r m : QueueItem) :
  precedes r m = true ->
  String.leb (ScheduledAt r) (ScheduledAt m) = true.
Proof.
  unfold precedes, String.leb.
  destruct (String.compare (ScheduledAt r) (ScheduledAt m));
    intros H; (discriminate || reflexivity).
Qed.


(** ** The SELECT of the claim *)

Lemma first_scheduled_none (l : list QueueItem) :
  first_scheduled l = None -> l = [].
Proof.
  destruct l as [|r l]; simpl; [reflexivity|].
  destruct (first_scheduled l) as [m|]; [|discriminate].
  destruct (precedes r m); discriminate.
Qed.

(** The row that is found is a row of the list and precedes every row of
    it. *)
Lemma first_scheduled_least (l : list QueueItem) (m : QueueItem) :
  first_scheduled l = Some m ->
  In m l /\ forall r, In r l -> precedes m r = true.
Proof.
  revert m. induction l as [|r l IH]; simpl; intros m H; [discriminate|].
  destruct (first_scheduled l) as [m'|] eqn:E.
  - destruct (IH m' eq_refl) as [Hin Hle].
    destruct (precedes r m') eqn:C; inversion H; subst.
    + split; [left; reflexivity|].
      intros x [<-|Hx]; [apply precedes_refl|].
      exact (precedes_trans _ _ _ C (Hle x Hx)).
    + split; [right; exact Hin|].
      intros x [<-|Hx]; [exact (precedes_total _ _ C) | exact (Hle x Hx)].
  - inversion H; subst. apply first_scheduled_none in E. subst l.
    split; [left; reflexivity|]. intros x [<-|[]]. apply precedes_refl.
Qed.

Lemma eligible_iff (name : string) (now : string) (r : QueueItem) :
  eligible name now r = true <->
  QueueName r = name /\ Status r = "pending" /\
  String.leb (ScheduledAt r) now = true.
Proof.
  unfold eligible. rewrite !andb_true_iff, !String.eqb_eq. tauto.
Qed.

Lemma by_key_iff (id : Z) (name : string) (r : QueueItem) :
  by_key id name r = true <-> ID r = id /\ QueueName r = name.
Proof.
  unfold by_key. rewrite andb_true_iff, Z.eqb_eq, String.eqb_eq. tauto.
Qed.

Lemma select_next_some (name : string) (now : string) (l : list QueueItem)
    (m : QueueItem) :
  select_next name now l = Some m ->
  In m l /\ eligible name now m = true /\
  forall r, In r l -> eligible name now r = true -> precedes m r = true.
Proof.
  unfold select_next. intros H.
  destruct (first_scheduled_least _ _ H) as [Hin Hle].
  apply filter_In in Hin. destruct Hin as [Hin He].
  repeat split; trivial.
  intros r Hr Her. apply Hle. apply filter_In. split; assumption.
Qed.

Lemma select_next_none (name : string) (now : string) (l : list QueueItem) :
  select_next name now l = None <->
  forall r, In r l -> eligible name now r = false.
Proof.
  unfold select_next. split.
  - intros H r Hr. apply first_scheduled_none in H.
    destruct (eligible name now r) eqn:E; [|reflexivity].
    assert (Hin : In r (filter (eligible name now) l))
      by (apply filter_In; split; assumption).
    rewrite H in Hin. destruct Hin.
  - intros H. replace (filter (eligible name now) l) with (@nil QueueItem);
      [reflexivity|].
    induction l as [|r l IH]; simpl; [reflexivity|].
    rewrite (H r (or_introl eq_refl)). apply IH.
    intros r' Hr'. apply H. right. exact Hr'.
Qed.

(** ** Dequeue, one case per outcome *)

Lemma Dequeue_closed (q : LaQueue) (now : Time) (d : DB) :
  closed d = true -> Dequeue q now d = (inl ErrClosed, d).
Proof.
  intros H. unfold Dequeue, bind, connect. rewrite H. reflexivity.
Qed.

Lemma Dequeue_empty (q : LaQueue) (now : Time) (d : DB) :
  closed d = false ->
  select_next (queueName q) (Format now) (rows d) = None ->
  Dequeue q now d = (inr None, d).
Proof.
  intros H E. unfold Dequeue, bind, connect, QueryRow_next.
  rewrite H, E. reflexivity.
Qed.

Lemma Dequeue_item (q : LaQueue) (now : Time) (d : DB) (item : QueueItem) :
  closed d = false ->
  select_next (queueName q) (Format now) (rows d) = Some item ->
  Dequeue q now d = (inr (Some (claimed now item)), after_claim q now item d).
Proof.
  intros H E. unfold Dequeue, bind, connect, QueryRow_next.
  rewrite H, E. reflexivity.
Qed.

(** Dequeue returns an item only on an open handle on which the SELECT found
    the row the item was made from. *)
Lemma Dequeue_inv (q : LaQueue) (now : Time) (d d' : DB)
    (item : QueueItem) :
  Dequeue q now d = (inr (Some item), d') ->
  exists r, closed d = false /\
            select_next (queueName q) (Format now) (rows d) = Some r /\
            item = claimed now r /\ d' = after_claim q now r d.
Proof.
  intros H. destruct (closed d) eqn:C.
  - rewrite (Dequeue_closed q now d C) in H. discriminate.
  - destruct (select_next (queueName q) (Format now) (rows d))
      as [r|] eqn:E.
    + rewrite (Dequeue_item q now d r C E) in H. inversion H; subst.
      exists r. repeat split; reflexivity.
    + rewrite (Dequeue_empty q now d C E) in H. discriminate.
Qed.

(** ** The claim protocol *)



(** C3.  When Dequeue returns an item made from a row whose attempts were
    [a], the item has status processing, attempts [a + 1] and the time of the
    claim as last_attempt_at, and the stored row with its id is equal to the
    item, field by field.  Ids are unique, as the primary key makes them, and
    attempts are below the largest [int64], so that [item.Attempts++] does
    not wrap. *)
Theorem C3_claimed_item_and_row (q : LaQueue) (now : Time) (d d' : DB)
    (item : QueueItem) :
  NoDup (map ID (rows d)) ->
  (forall r, In r (rows d) -> min_int64 <= Attempts r < max_int64) ->
  Dequeue q now d = (inr (Some item), d') ->
  exists r,
    In r (rows d) /\ ID r = ID item /\ Status r = "pending" /\
    Status item = "processing" /\
    Attempts item = Attempts r + 1 /\
    LastAttemptAt item = Some (Format now) /\
    In item (rows d') /\
    forall r', In r' (rows d') -> ID r' = ID item -> r' = item.
Proof.
  intros Hnd Hrange H.
  destruct (Dequeue_inv q now d d' item H) as (r & Hopen & Hsel & -> & ->).
  destruct (select_next_some _ _ _ _ Hsel) as (Hin & He & _).
  apply eligible_iff in He. destruct He as (Hq & Hs & _).
  assert (Hw : wrap64 (Attempts r + 1) = Attempts r + 1).
  { specialize (Hrange r Hin). unfold wrap64, min_int64, max_int64 in *.
    rewrite Z.mod_small; lia. }
  assert (Hclaimed : claimed now r = set_processing now r).
  { unfold claimed, set_processing. rewrite Hw. reflexivity. }
  exists r. simpl. repeat split; trivial.
  - rewrite Hclaimed. apply in_map_iff. exists r. split; [|exact Hin].
    replace (by_key (ID r) (queueName q) r) with true; [reflexivity|].
    symmetry. apply by_key_iff. split; [reflexivity|exact Hq].
  - intros r' Hr' Hid. apply in_map_iff in Hr'.
    destruct Hr' as (r0 & Hr0 & Hin0).
    assert (Hid0 : ID r0 = ID r).
    { rewrite <- Hid, <- Hr0.
      destruct (by_key (ID r) (queueName q) r0); reflexivity. }
    assert (r0 = r).
    { clear - Hnd Hin Hin0 Hid0. induction (rows d) as [|x l IH];
        [destruct Hin|].
      simpl in Hnd. inversion Hnd as [|? ? Hnot Hnd']; subst.
      destruct Hin as [->|Hin], Hin0 as [->|Hin0]; trivial.
      - exfalso. apply Hnot. rewrite <- Hid0. apply in_map. exact Hin0.
      - exfalso. apply Hnot. rewrite Hid0. apply in_map. exact Hin.
      - apply IH; assumption. }
    subst r0. rewrite <- Hr0, Hclaimed.
    replace (by_key (ID r) (queueName q) r) with true; [reflexivity|].
    symmetry. apply by_key_iff. split; [reflexivity|exact Hq].
Qed.

Lemma C3_claimed_item_and_row_witness :
  exists r,
    In r (rows Sample.mixed) /\ ID r = 1 /\ Status r = "pending" /\
    Status (claimed (Sample.utc 5) (Sample.job 1 3 "pending" 1))
      = "processing" /\
    Attempts (claimed (Sample.utc 5) (Sample.job 1 3 "pending" 1))
      = Attempts r + 1 /\
    LastAttemptAt (claimed (Sample.utc 5) (Sample.job 1 3 "pending" 1))
      = Some (Format (Sample.utc 5)) /\
    In (claimed (Sample.utc 5) (Sample.job 1 3 "pending" 1))
       (rows (after_claim Sample.jobs (Sample.utc 5)
                          (Sample.job 1 3 "pending" 1) Sample.mixed)) /\
    forall r',
      In r' (rows (after_claim Sample.jobs (Sample.utc 5)
                               (Sample.job 1 3 "pending" 1) Sample.mixed)) ->
      ID r' = 1 -> r' = claimed (Sample.utc 5) (Sample.job 1 3 "pending" 1).
Proof.
  apply (C3_claimed_item_and_row
           Sample.jobs (Sample.utc 5) Sample.mixed
           (after_claim Sample.jobs (Sample.utc 5)
                        (Sample.job 1 3 "pending" 1) Sample.mixed)
           (claimed (Sample.utc 5) (Sample.job 1 3 "pending" 1))).
  - vm_compute. repeat constructor; simpl; intuition discriminate.
  - intros r [<-|[<-|[<-|[]]]]; vm_compute; split; congruence.
  - vm_compute. reflexivity.
Defined.

(** C1, counterexample.  In Sample.one_pending a first claimer has run its
    SELECT 5 seconds after midnight and found row 1.  A second claimer then
    runs a whole Dequeue.  The UPDATE of the first claimer, run a second
    later on the store the second one left, still affects one row although
    that row is no longer pending, and the first claimer is handed the item
    as well. *)
Lemma C1_update_has_no_status_guard :
  let d' := snd (Dequeue Sample.jobs (Sample.utc 5) Sample.one_pending) in
  select_next "jobs" (Format (Sample.utc 5)) (rows Sample.one_pending)
    = Some (Sample.job 1 0 "pending" 0) /\
  rows d' = [mkItem 1 "jobs" [] "2024-01-01 00:00:00" "2024-01-01 00:00:00"
                    "processing" 1 (Some "2024-01-01 00:00:05+00:00")] /\
  update_rows (by_key 1 "jobs") (set_processing (Sample.utc 6)) d'
    = (inr 1,
       mkDB [mkItem 1 "jobs" [] "2024-01-01 00:00:00" "2024-01-01 00:00:00"
                    "processing" 2 (Some "2024-01-01 00:00:06+00:00")]
            1 false) /\
  fst (mark_claimed Sample.jobs (Sample.utc 6) (Sample.job 1 0 "pending" 0)
                    d')
    = inr (Some (mkItem 1 "jobs" [] "2024-01-01 00:00:00"
                        "2024-01-01 00:00:00" "processing" 1
                        (Some "2024-01-01 00:00:06+00:00"))).
Proof. vm_compute. repeat split. Qed.

(** C1, amended.  Once the SELECT of Dequeue has found a row, the rest of
    Dequeue is the UPDATE and the return of the item.  On whatever store the
    UPDATE runs, it rewrites exactly the rows with the id of the item and the
    name of the queue, with no condition on their status, and the item is
    returned whatever the number of rows affected. *)
Theorem C1_claim_update_keyed_by_id_and_queue (q : LaQueue) (now : Time)
    (d : DB) (item : QueueItem) :
  closed d = false ->
  select_next (queueName q) (Format now) (rows d) = Some item ->
  Dequeue q now d = mark_claimed q now item d /\
  forall d1,
    fst (mark_claimed q now item d1) = inr (Some (claimed now item)) /\
    rows (snd (mark_claimed q now item d1))
      = map (fun r => if (ID r =? ID item)
                         && String.eqb (QueueName r) (queueName q)
                      then set_processing now r else r) (rows d1).
Proof.
  intros Hopen Hsel. split.
  - rewrite (Dequeue_item q now d item Hopen Hsel). reflexivity.
  - intros d1. split; reflexivity.
Qed.

Lemma C1_claim_update_keyed_by_id_and_queue_witness :
  Dequeue Sample.jobs (Sample.utc 5) Sample.one_pending
    = mark_claimed Sample.jobs (Sample.utc 5) (Sample.job 1 0 "pending" 0)
                   Sample.one_pending.
Proof.
  apply (C1_claim_update_keyed_by_id_and_queue
           Sample.jobs (Sample.utc 5) Sample.one_pending
           (Sample.job 1 0 "pending" 0));
    vm_compute; reflexivity.
Defined.



(** ** The status writes *)

Lemma changes_positive (p : QueueItem -> bool) (l : list QueueItem) :
  (Z.of_nat (List.length (filter p l)) >? 0) = existsb p l.
Proof.
  induction l as [|r l IH]; simpl; [reflexivity|].
  destruct (p r); simpl; [|exact IH].
  apply Z.gtb_lt. lia.
Qed.

(** C5, counterexample.  What Complete of the Go code returns on an open
    handle is the same whether a row matched or not: no function of the
    returned value tells whether one did. *)
Lemma C5_go_result_does_not_tell_match :
  ~ exists told : error + unit -> bool,
      forall d, closed d = false ->
                told (fst (Complete Sample.jobs 1 d))
                = existsb (by_key 1 "jobs") (rows d).
Proof.
  intros [told H].
  pose proof (H Sample.one_pending eq_refl) as H1.
  pose proof (H (mkDB [] 0 false) eq_refl) as H2.
  vm_compute in H1, H2. congruence.
Qed.

(** C5, amended.  Complete, Fail and RetryWithDelay rewrite the rows with the
    given id and the name of the queue, whatever their status.  The Go
    methods return the error of the statement only, which is nil on an open
    handle whether or not a row matched; the methods of the TypeScript port
    return whether a row matched. *)
Theorem C5_status_writes_by_id_and_queue (q : LaQueue) (id delay : Z)
    (now : Time) (now_ms : Z) (d : DB) :
  closed d = false ->
  let key r := (ID r =? id) && String.eqb (QueueName r) (queueName q) in
  let written f :=
    mkDB (map (fun r => if key r then f r else r) (rows d))
         (seq d) (closed d) in
  let matched := existsb key (rows d) in
  Complete q id d = (inr tt, written (set_status "completed")) /\
  Fail q id d = (inr tt, written (set_status "failed")) /\
  RetryWithDelay q id delay now d
    = (inr tt, written (set_retry (Format (Add now delay)))) /\
  TS.complete q id d = (inr matched, written (set_status "completed")) /\
  TS.fail q id d = (inr matched, written (set_status "failed")) /\
  TS.retryWithDelay q id delay now_ms d
    = (inr matched, written (set_retry (toISOString (now_ms + delay)))).
Proof.
  intros Hopen key written matched.
  unfold Complete, Fail, RetryWithDelay, TS.complete, TS.fail,
    TS.retryWithDelay, bind, connect, update_rows, ret.
  rewrite Hopen. cbn [fst snd].
  rewrite (changes_positive (by_key id (queueName q)) (rows d)).
  repeat split.
Qed.

Lemma C5_status_writes_by_id_and_queue_witness :
  Complete Sample.jobs 3 Sample.mixed
    = (inr tt,
       mkDB [Sample.job 1 3 "pending" 1;
             mkItem 2 "mail" [] (Sample.stamp 0) (Sample.stamp 0)
                    "pending" 0 None;
             Sample.job 3 9 "completed" 1] 3 false) /\
  TS.complete Sample.jobs 2 Sample.mixed = (inr false, Sample.mixed).
Proof.
  split.
  - apply (C5_status_writes_by_id_and_queue
             Sample.jobs 3 0 (Sample.utc 0) 0 Sample.mixed).
    reflexivity.
  - apply (C5_status_writes_by_id_and_queue
             Sample.jobs 2 0 (Sample.utc 0) 0 Sample.mixed).
    reflexivity.
Defined.

(** ** Sequences of calls: the attempts counter and the primary key *)

Section Calls.

Context {Value : Type} (Marshal : Value -> option (list Byte.byte)).

Lemma insert_row_keeps (name : string) (payload : list Byte.byte)
    (t scheduled : string) (d : DB) (i : nat) (r : QueueItem) :
  nth_error (rows d) i = Some r ->
  nth_error (rows (snd (insert_row name payload t scheduled d))) i = Some r.
Proof.
  intros H. unfold insert_row.
  destruct (max_int64 <=? Z.max (seq d) (max_id (rows d))); simpl;
    [exact H|].
  rewrite nth_error_app1; [exact H|].
  apply nth_error_Some. rewrite H. discriminate.
Qed.

(** One call changes the attempts of a row by one when it claims the row and
    not at all otherwise; the row keeps its place and its id. *)
Lemma step_attempts (o : op) (d : DB) (i : nat) (r : QueueItem) :
  nth_error (rows d) i = Some r ->
  exists r1,
    nth_error (rows (step Marshal o d)) i = Some r1 /\
    ID r1 = ID r /\
    Attempts r1 = Attempts r + (if claims o d r then 1 else 0).
Proof.
  intros H.
  assert (Hsame : exists r1, nth_error (rows d) i = Some r1 /\
                             ID r1 = ID r /\ Attempts r1 = Attempts r + 0)
    by (exists r; repeat split; [exact H | lia]).
  destruct o as [q v t|q v delay now t|q now|q id|q id|q id delay now|q now];
    simpl.
  - unfold Enqueue. destruct (Marshal v); [|exact Hsame].
    unfold bind, connect. destruct (closed d); [exact Hsame|].
    exists r. rewrite (insert_row_keeps _ _ _ _ _ _ _ H).
    repeat split; lia.
  - unfold EnqueueWithDelay. destruct (Marshal v); [|exact Hsame].
    unfold bind, connect. destruct (closed d); [exact Hsame|].
    exists r. rewrite (insert_row_keeps _ _ _ _ _ _ _ H).
    repeat split; lia.
  - destruct (closed d) eqn:C.
    + rewrite (Dequeue_closed q now d C). exact Hsame.
    + destruct (select_next (queueName q) (Format now) (rows d))
        as [item|] eqn:E.
      * rewrite (Dequeue_item q now d item C E). simpl.
        rewrite (map_nth_error _ _ _ H).
        destruct (by_key (ID item) (queueName q) r);
          eexists; repeat split; simpl; lia.
      * rewrite (Dequeue_empty q now d C E). exact Hsame.
  - unfold Complete, bind, connect. destruct (closed d); [exact Hsame|].
    unfold update_rows, ret. simpl. rewrite (map_nth_error _ _ _ H).
    destruct (by_key id (queueName q) r); eexists; repeat split; simpl; lia.
  - unfold Fail, bind, connect. destruct (closed d); [exact Hsame|].
    unfold update_rows, ret. simpl. rewrite (map_nth_error _ _ _ H).
    destruct (by_key id (queueName q) r); eexists; repeat split; simpl; lia.
  - unfold RetryWithDelay, bind, connect. destruct (closed d);
      [exact Hsame|].
    unfold update_rows, ret. simpl. rewrite (map_nth_error _ _ _ H).
    destruct (by_key id (queueName q) r); eexists; repeat split; simpl; lia.
  - unfold Size, bind, connect. destruct (closed d); exact Hsame.
Qed.

Lemma run_attempts (ops : list op) (d : DB) (i : nat) (r : QueueItem) :
  nth_error (rows d) i = Some r ->
  exists r',
    nth_error (rows (run Marshal ops d)) i = Some r' /\
    ID r' = ID r /\ Attempts r <= Attempts r'.
Proof.
  revert d r. induction ops as [|o ops IH]; intros d r H; simpl.
  - exists r. repeat split; [exact H | lia].
  - destruct (step_attempts o d i r H) as (r1 & H1 & Hid & Ha).
    destruct (IH _ _ H1) as (r' & H' & Hid' & Ha').
    exists r'. repeat split; [exact H' | congruence |].
    destruct (claims o d r); lia.
Qed.

(** C6.  Through any sequence of calls of the queue methods a row keeps its
    id and its attempts never decrease; a single call adds exactly one to the
    attempts of the row it claims, and Enqueue, EnqueueWithDelay, Complete,
    Fail, RetryWithDelay, Size and a Dequeue that claims another row or none
    leave the attempts of the row as they were. *)
Theorem C6_attempts_never_decrease (ops : list op) (o : op) (d : DB)
    (i : nat) (r : QueueItem) :
  nth_error (rows d) i = Some r ->
  (exists r',
     nth_error (rows (run Marshal ops d)) i = Some r' /\
     ID r' = ID r /\ Attempts r <= Attempts r') /\
  (exists r1,
     nth_error (rows (step Marshal o d)) i = Some r1 /\
     ID r1 = ID r /\
     Attempts r1 = Attempts r +
                   match o with
                   | OpDequeue _ _ => if claims o d r then 1 else 0
                   | _ => 0
                   end).
Proof.
  intros H. split; [exact (run_attempts ops d i r H)|].
  destruct (step_attempts o d i r H) as (r1 & H1 & Hid & Ha).
  exists r1. repeat split; trivial.
  rewrite Ha. destruct o; reflexivity.
Qed.

(** *** The primary key *)

Lemma max_id_bound (l : list QueueItem) (r : QueueItem) :
  In r l -> ID r <= max_id l.
Proof.
  induction l as [|x l IH]; simpl; intros H; [destruct H|].
  destruct H as [->|H]; [lia|]. specialize (IH H). lia.
Qed.

Lemma update_keeps_ids (p : QueueItem -> bool) (f : QueueItem -> QueueItem)
    (l : list QueueItem) :
  (forall r, ID (f r) = ID r) ->
  map ID (map (fun r => if p r then f r else r) l) = map ID l.
Proof.
  intros Hf. rewrite map_map. apply map_ext.
  intros r. destruct (p r); [apply Hf | reflexivity].
Qed.

Lemma insert_row_unique (name : string) (payload : list Byte.byte)
    (t scheduled : string) (d : DB) :
  NoDup (map ID (rows d)) ->
  NoDup (map ID (rows (snd (insert_row name payload t scheduled d)))).
Proof.
  intros H. unfold insert_row.
  destruct (max_int64 <=? Z.max (seq d) (max_id (rows d))); simpl;
    [exact H|].
  rewrite map_app. apply NoDup_app; [exact H | repeat constructor; intros [] |].
  simpl. intros a Ha [Heq|[]]. apply in_map_iff in Ha.
  destruct Ha as (r & <- & Hr). pose proof (max_id_bound _ _ Hr). lia.
Qed.

(** No call of a queue method gives two rows the same id. *)
Lemma step_unique_ids (o : op) (d : DB) :
  NoDup (map ID (rows d)) -> NoDup (map ID (rows (step Marshal o d))).
Proof.
  intros H.
  destruct o as [q v t|q v delay now t|q now|q id|q id|q id delay now|q now];
    simpl.
  - unfold Enqueue. destruct (Marshal v); [|exact H].
    unfold bind, connect. destruct (closed d); [exact H|].
    apply insert_row_unique. exact H.
  - unfold EnqueueWithDelay. destruct (Marshal v); [|exact H].
    unfold bind, connect. destruct (closed d); [exact H|].
    apply insert_row_unique. exact H.
  - destruct (closed d) eqn:C.
    + rewrite (Dequeue_closed q now d C). exact H.
    + destruct (select_next (queueName q) (Format now) (rows d))
        as [item|] eqn:E.
      * rewrite (Dequeue_item q now d item C E). simpl.
        rewrite update_keeps_ids; [exact H | reflexivity].
      * rewrite (Dequeue_empty q now d C E). exact H.
  - unfold Complete, bind, connect. destruct (closed d); [exact H|].
    unfold update_rows, ret. simpl.
    rewrite update_keeps_ids; [exact H | reflexivity].
  - unfold Fail, bind, connect. destruct (closed d); [exact H|].
    unfold update_rows, ret. simpl.
    rewrite update_keeps_ids; [exact H | reflexivity].
  - unfold RetryWithDelay, bind, connect. destruct (closed d); [exact H|].
    unfold update_rows, ret. simpl.
    rewrite update_keeps_ids; [exact H | reflexivity].
  - unfold Size, bind, connect. destruct (closed d); exact H.
Qed.

(** Ids that are unique stay unique through any sequence of calls of the
    queue methods. *)
Lemma run_unique_ids (ops : list op) (d : DB) :
  NoDup (map ID (rows d)) -> NoDup (map ID (rows (run Marshal ops d))).
Proof.
  revert d. induction ops as [|o ops IH]; intros d H; simpl; [exact H|].
  apply IH, step_unique_ids, H.
Qed.

End Calls.

Lemma C6_attempts_never_decrease_witness :
  (exists r',
     nth_error (rows (run (@Some (list Byte.byte))
                          [OpDequeue Sample.jobs (Sample.utc 5);
                           OpRetryWithDelay Sample.jobs 1 2 (Sample.utc 6);
                           OpEnqueue Sample.jobs [] (Sample.instant 7);
                           OpDequeue Sample.jobs (Sample.utc 9);
                           OpComplete Sample.jobs 1]
                          Sample.mixed)) 0 = Some r' /\
     ID r' = 1 /\ 1 <= Attempts r') /\
  (exists r1,
     nth_error (rows (step (@Some (list Byte.byte))
                           (OpDequeue Sample.jobs (Sample.utc 5))
                           Sample.mixed)) 0
       = Some r1 /\
     ID r1 = 1 /\ Attempts r1 = 1 + 1).
Proof.
  apply (C6_attempts_never_decrease (@Some (list Byte.byte))
           [OpDequeue Sample.jobs (Sample.utc 5);
            OpRetryWithDelay Sample.jobs 1 2 (Sample.utc 6);
            OpEnqueue Sample.jobs [] (Sample.instant 7);
            OpDequeue Sample.jobs (Sample.utc 9);
            OpComplete Sample.jobs 1]
           (OpDequeue Sample.jobs (Sample.utc 5)) Sample.mixed 0
           (Sample.job 1 3 "pending" 1)).
  reflexivity.
Defined.

(** ** Enqueue, then Dequeue *)

(** A row that precedes every row of a list is found when it is put behind
    the list. *)
Lemma first_scheduled_last (l : list QueueItem) (x : QueueItem) :
  (forall r, In r l -> precedes r x = false) ->
  first_scheduled (l ++ [x]) = Some x.
Proof.
  induction l as [|r l IH]; simpl; intros H; [reflexivity|].
  rewrite IH by (intros r' Hr'; apply H; right; exact Hr').
  rewrite (H r (or_introl eq_refl)). reflexivity.
Qed.

Section RoundTrip.

(** The encoding of payloads is the caller's: [json.Marshal] and
    [json.Unmarshal], of which only the round trip is assumed. *)
Context {Value : Type}
        (Marshal : Value -> option (list Byte.byte))
        (Unmarshal : list Byte.byte -> option Value).
Hypothesis round_trip :
  forall v b, Marshal v = Some b -> Unmarshal b = Some v.


End RoundTrip.



(** ** The worker *)

Import Worker.

(** Up to 33 attempts nothing wraps: the delay is [2 ^ attempts] seconds. *)
Lemma backoff_exact (a : Z) :
  0 <= a <= 33 -> backoff a = Second * 2 ^ a.
Proof.
  intros Ha. unfold backoff, mul64, shl64, to_uint.
  assert (Hpow : 1 <= 2 ^ a <= 2 ^ 33).
  { split; [|apply Z.pow_le_mono_r; lia].
    assert (0 < 2 ^ a) by (apply Z.pow_pos_nonneg; lia). lia. }
  change (2 ^ 33) with 8589934592 in Hpow.
  rewrite (Z.mod_small a) by (change (2 ^ 64) with 18446744073709551616; lia).
  replace (a <? 64) with true by (symmetry; apply Z.ltb_lt; lia).
  rewrite Z.shiftl_mul_pow2 by lia. rewrite Z.mul_1_l.
  unfold wrap64, Second.
  change (2 ^ 63) with 9223372036854775808.
  change (2 ^ 64) with 18446744073709551616.
  rewrite (Z.mod_small (2 ^ a + _)) by lia.
  rewrite Z.mod_small by lia. lia.
Qed.

Lemma dequeues_app (l1 l2 : list call) :
  dequeues (l1 ++ l2) = (dequeues l1 + dequeues l2)%nat.
Proof. unfold dequeues. rewrite filter_app. apply length_app. Qed.

(** Every iteration calls Dequeue once, whatever the handler answers. *)
Lemma processNext_dequeues (w : Worker) (now later : Time) (s : World) :
  dequeues (calls (processNext w now later s)) = S (dequeues (calls s)).
Proof.
  unfold processNext.
  destruct (Dequeue (queue w) now (store s)) as [[e|[item|]] d]; simpl.
  - rewrite dequeues_app. unfold dequeues. simpl. lia.
  - destruct (processFunc w (Payload item));
      [destruct (Attempts item >=? maxRetries w)|];
      simpl; rewrite !dequeues_app; unfold dequeues; simpl; lia.
  - rewrite dequeues_app. unfold dequeues. simpl. lia.
Qed.

Lemma Start_dequeues (w : Worker) (ticks : list (Time * Time)) (s : World) :
  dequeues (calls (Start w (map (fun t => Tick (fst t) (snd t)) ticks) s))
  = (dequeues (calls s) + List.length ticks)%nat.
Proof.
  revert s. induction ticks as [|t ticks IH]; intros s; simpl; [lia|].
  rewrite IH, processNext_dequeues. lia.
Qed.

(** A status write leaves the rows with another id as they are. *)
Lemma update_rows_others (p : QueueItem -> bool) (f : QueueItem -> QueueItem)
    (d : DB) (r : QueueItem) :
  In r (rows d) -> p r = false -> In r (rows (snd (update_rows p f d))).
Proof.
  intros Hin Hp. unfold update_rows. simpl. apply in_map_iff.
  exists r. rewrite Hp. split; [reflexivity | exact Hin].
Qed.

Lemma by_key_other (id : Z) (name : string) (r : QueueItem) :
  ID r <> id -> by_key id name r = false.
Proof.
  intros H. unfold by_key. apply Z.eqb_neq in H. rewrite H. reflexivity.
Qed.

(** C7.  When the handler fails on a claimed item that may be retried, the
    delay handed to RetryWithDelay is computed from the attempts of the item
    Dequeue returned, which count the claim just made, and it is the delay of
    a first attempt, 2 seconds, times [2 ^ (attempts - 1)].  The attempts are
    at most 33: up to there the product fits [int64] (see [backoff_values]
    for what lies beyond). *)
Theorem C7_backoff_doubles_from_first_delay (w : Worker) (now later : Time)
    (s : World) (item : QueueItem) (d : DB) (e : string) :
  Dequeue (queue w) now (store s) = (inr (Some item), d) ->
  processFunc w (Payload item) = Some e ->
  Attempts item < maxRetries w ->
  1 <= Attempts item <= 33 ->
  let delay := backoff 1 * 2 ^ (Attempts item - 1) in
  backoff 1 = 2 * Second /\
  (exists r, select_next (Queue.queueName (queue w)) (Format now)
                         (rows (store s))
             = Some r /\
             Attempts item = wrap64 (Attempts r + 1)) /\
  processNext w now later s
  = mkWorld (snd (RetryWithDelay (queue w) (ID item) delay later d))
            (calls s ++ [CallDequeue; CallRetryWithDelay (ID item) delay]).
Proof.
  intros Hdq Hfail Hlt Hrange delay.
  assert (Hdelay : backoff (Attempts item) = delay).
  { unfold delay. rewrite !backoff_exact by lia.
    assert (Hsucc : 2 ^ Attempts item = 2 * 2 ^ (Attempts item - 1)).
    { rewrite <- Z.pow_succ_r by lia. f_equal. lia. }
    rewrite Hsucc. change (2 ^ 1) with 2. ring. }
  split; [reflexivity|]. split.
  - destruct (Dequeue_inv _ _ _ _ _ Hdq) as (r & _ & Hsel & -> & _).
    exists r. split; [exact Hsel | reflexivity].
  - unfold processNext. rewrite Hdq, Hfail.
    replace (Attempts item >=? maxRetries w) with false
      by (symmetry; rewrite Z.geb_leb; apply Z.leb_gt; lia).
    rewrite Hdelay, <- app_assoc. reflexivity.
Qed.

Lemma C7_backoff_doubles_from_first_delay_witness :
  processNext (New (mkConfig "jobs" 0 0) (fun _ => Some "boom"))
              (Sample.utc 5) (Sample.utc 6) (mkWorld Sample.mixed [])
  = mkWorld (mkDB [mkItem 1 "jobs" [] "2024-01-01 00:00:00"
                          "2024-01-01 00:00:10+00:00" "pending" 2
                          (Some "2024-01-01 00:00:05+00:00");
                   mkItem 2 "mail" [] (Sample.stamp 0) (Sample.stamp 0)
                          "pending" 0 None;
                   Sample.job 3 9 "completed" 1] 3 false)
            [CallDequeue; CallRetryWithDelay 1 (4 * Second)].
Proof.
  assert (H := C7_backoff_doubles_from_first_delay
           (New (mkConfig "jobs" 0 0) (fun _ => Some "boom"))
           (Sample.utc 5) (Sample.utc 6)
           (mkWorld Sample.mixed [])
           (claimed (Sample.utc 5) (Sample.job 1 3 "pending" 1))
           (after_claim Sample.jobs (Sample.utc 5)
                        (Sample.job 1 3 "pending" 1) Sample.mixed)
           "boom").
  destruct H as (_ & _ & H);
    [vm_compute; reflexivity | reflexivity | reflexivity
     | vm_compute; split; discriminate |].
  rewrite H. vm_compute. reflexivity.
Defined.

(** C8.  When the handler fails on a claimed item, the iteration makes
    exactly one more call on the queue: Fail when the attempts of the item
    have reached the retry ceiling, RetryWithDelay with the backoff of those
    attempts otherwise.  Rows with another id are left as Dequeue left them,
    the loop goes on with the next event, and over any sequence of ticks it
    calls Dequeue once per tick. *)
Theorem C8_handler_failure_one_transition (w : Worker) (now later : Time)
    (s : World) (item : QueueItem) (d : DB) (e : string) :
  Dequeue (queue w) now (store s) = (inr (Some item), d) ->
  processFunc w (Payload item) = Some e ->
  (maxRetries w <= Attempts item ->
   processNext w now later s
   = mkWorld (snd (Fail (queue w) (ID item) d))
             (calls s ++ [CallDequeue; CallFail (ID item)])) /\
  (Attempts item < maxRetries w ->
   processNext w now later s
   = mkWorld (snd (RetryWithDelay (queue w) (ID item)
                                  (backoff (Attempts item)) later d))
             (calls s ++ [CallDequeue;
                          CallRetryWithDelay (ID item)
                                             (backoff (Attempts item))])) /\
  (forall r, In r (rows d) -> ID r <> ID item ->
             In r (rows (store (processNext w now later s)))) /\
  (forall evs, Start w (Tick now later :: evs) s
               = Start w evs (processNext w now later s)) /\
  (forall ticks s0,
     dequeues (calls (Start w (map (fun t => Tick (fst t) (snd t)) ticks) s0))
     = (dequeues (calls s0) + List.length ticks)%nat).
Proof.
  intros Hdq Hfail. repeat split.
  - intros Hge. unfold processNext. rewrite Hdq, Hfail.
    replace (Attempts item >=? maxRetries w) with true
      by (symmetry; rewrite Z.geb_leb; apply Z.leb_le; lia).
    rewrite <- app_assoc. reflexivity.
  - intros Hlt. unfold processNext. rewrite Hdq, Hfail.
    replace (Attempts item >=? maxRetries w) with false
      by (symmetry; rewrite Z.geb_leb; apply Z.leb_gt; lia).
    rewrite <- app_assoc. reflexivity.
  - intros r Hin Hid. unfold processNext. rewrite Hdq, Hfail.
    assert (Hopen : closed d = false).
    { destruct (Dequeue_inv _ _ _ _ _ Hdq) as (r0 & Hopen & _ & _ & ->).
      exact Hopen. }
    destruct (Attempts item >=? maxRetries w); simpl;
      unfold Fail, RetryWithDelay, bind, connect; rewrite Hopen;
      apply (update_rows_others _ _ d r Hin), by_key_other, Hid.
  - intros ticks s0. apply Start_dequeues.
Qed.

Lemma C8_handler_failure_one_transition_witness :
  processNext (New (mkConfig "jobs" 0 2) (fun _ => Some "boom"))
              (Sample.utc 5) (Sample.utc 6) (mkWorld Sample.mixed [])
  = mkWorld (mkDB [mkItem 1 "jobs" [] "2024-01-01 00:00:00"
                          "2024-01-01 00:00:03" "failed" 2
                          (Some "2024-01-01 00:00:05+00:00");
                   mkItem 2 "mail" [] (Sample.stamp 0) (Sample.stamp 0)
                          "pending" 0 None;
                   Sample.job 3 9 "completed" 1] 3 false)
            [CallDequeue; CallFail 1].
Proof.
  assert (H := C8_handler_failure_one_transition
           (New (mkConfig "jobs" 0 2) (fun _ => Some "boom"))
           (Sample.utc 5) (Sample.utc 6)
           (mkWorld Sample.mixed [])
           (claimed (Sample.utc 5) (Sample.job 1 3 "pending" 1))
           (after_claim Sample.jobs (Sample.utc 5)
                        (Sample.job 1 3 "pending" 1) Sample.mixed)
           "boom").
  destruct H as (H & _); [vm_compute; reflexivity | reflexivity |].
  rewrite H; [vm_compute; reflexivity | vm_compute; discriminate].
Defined.

(** C10.  New replaces an interval of zero by 5 seconds and a retry ceiling
    of zero by 3 and keeps any other value, so that neither is zero in the
    worker it returns. *)
Theorem C10_zero_config_takes_defaults (config : Config) (f : ProcessFunc) :
  interval (New config f)
    = (if Interval config =? 0 then 5 * Second else Interval config) /\
  maxRetries (New config f)
    = (if MaxRetries config =? 0 then 3 else MaxRetries config) /\
  maxRetries (New config f) <> 0 /\
  interval (New config f) <> 0.
Proof.
  unfold New.
  destruct (Interval config =? 0) eqn:Ei, (MaxRetries config =? 0) eqn:Em;
    simpl; rewrite ?Ei, ?Em; simpl;
    try apply Z.eqb_neq in Ei; try apply Z.eqb_neq in Em;
    repeat split; trivial; unfold Second; lia.
Qed.

(** ** The scenarios of the repository's tests, and the edges of the backoff *)

(** TestEnqueueDequeue in a process whose zone is UTC: the item comes back
    with attempts 1 and status processing, and after Complete there is
    nothing left to claim. *)
Example test_enqueue_dequeue :
  let d1 := snd (Queue.Enqueue Sample.raw Sample.jobs [Byte.x68; Byte.x69]
                               (Sample.instant 10) Sample.fresh) in
  let '(got, d2) := Dequeue Sample.jobs (Sample.utc 11) d1 in
  let d3 := snd (Complete Sample.jobs 1 d2) in
  fst (Queue.Enqueue Sample.raw Sample.jobs [Byte.x68; Byte.x69]
                     (Sample.instant 10) Sample.fresh) = inr 1 /\
  got = inr (Some (mkItem 1 "jobs" [Byte.x68; Byte.x69]
                          "2024-01-01 00:00:10" "2024-01-01 00:00:10"
                          "processing" 1
                          (Some "2024-01-01 00:00:11+00:00"))) /\
  Dequeue Sample.jobs (Sample.utc 12) d3 = (inr None, d3).
Proof. vm_compute. repeat split. Qed.

(** The same two calls in a process whose zone is five hours west of UTC:
    the row carries the UTC text of CURRENT_TIMESTAMP, the Dequeue binds the
    text of the local time, which sorts before it, and nothing is claimed. *)
Example enqueue_dequeue_west_of_utc :
  let d1 := snd (Queue.Enqueue Sample.raw Sample.jobs [Byte.x68; Byte.x69]
                               (Sample.instant 10) Sample.fresh) in
  rows d1 = [mkItem 1 "jobs" [Byte.x68; Byte.x69]
                    "2024-01-01 00:00:10" "2024-01-01 00:00:10"
                    "pending" 0 None] /\
  Format (Sample.west 11) = "2023-12-31 19:00:11-05:00" /\
  Dequeue Sample.jobs (Sample.west 11) d1 = (inr None, d1).
Proof. vm_compute. repeat split. Qed.

(** TestEnqueueWithDelay: nothing to claim before the delay has passed. *)
Example test_enqueue_with_delay :
  let d1 := snd (Queue.EnqueueWithDelay Sample.raw Sample.jobs []
                                        (2 * Second) (Sample.utc 100)
                                        (Sample.instant 100)
                                        Sample.fresh) in
  fst (Dequeue Sample.jobs (Sample.utc 101) d1) = inr None /\
  fst (Dequeue Sample.jobs (Add (Sample.utc 102) 1) d1)
  = inr (Some (mkItem 1 "jobs" [] "2024-01-01 00:01:40"
                      "2024-01-01 00:01:42+00:00" "processing" 1
                      (Some "2024-01-01 00:01:42.000000001+00:00"))).
Proof. vm_compute. repeat split. Qed.

(** TestRetryWithDelay: the second claim, after the delay, counts 2. *)
Example test_retry_with_delay :
  let d := run Sample.raw
               [OpEnqueue Sample.jobs [] (Sample.instant 10);
                OpDequeue Sample.jobs (Sample.utc 11);
                OpRetryWithDelay Sample.jobs 1 Second (Sample.utc 12)]
               Sample.fresh in
  fst (Dequeue Sample.jobs (Add (Sample.utc 12) 1) d) = inr None /\
  fst (Dequeue Sample.jobs (Sample.utc 14) d)
  = inr (Some (mkItem 1 "jobs" [] "2024-01-01 00:00:10"
                      "2024-01-01 00:00:13+00:00" "processing" 2
                      (Some "2024-01-01 00:00:14+00:00"))).
Proof. vm_compute. repeat split. Qed.

(** Two rows in a process five hours west of UTC: row 1 is written by
    Enqueue at midnight UTC, row 2 by EnqueueWithDelay at the same instant
    and is due an hour later.  The text of row 2 sorts first.  Row 1 does
    not pass the test of the SELECT until the local clock shows 00:00:00,
    five hours on, and row 2 is the one a Dequeue selects before and after
    that. *)
Example texts_of_two_forms :
  let d := run Sample.raw
               [OpEnqueue Sample.jobs [] (Sample.instant 0);
                OpEnqueueWithDelay Sample.jobs [] (3600 * Second)
                                   (Sample.west 0) (Sample.instant 0)]
               Sample.fresh in
  map ScheduledAt (rows d)
    = ["2024-01-01 00:00:00"; "2023-12-31 20:00:00-05:00"] /\
  option_map ID (select_next "jobs" (Format (Sample.west 3601)) (rows d))
    = Some 2 /\
  option_map ID (select_next "jobs" (Format (Sample.west 17999)) (rows d))
    = Some 2 /\
  option_map ID (select_next "jobs" (Format (Sample.west 18000)) (rows d))
    = Some 2.
Proof. vm_compute. repeat split. Qed.

(** A retry across a change of offset.  At 01:59:58.5 local time, 1.5
    seconds before the clocks go back by an hour, RetryWithDelay schedules
    row 1 three seconds on and writes 01:00:01.5-05:00.  The Dequeue at
    01:59:59.9-04:00, 1.6 seconds before the row is due, finds that text
    before its own and selects the row. *)
Example retry_across_offset_change :
  let d := snd (RetryWithDelay Sample.jobs 1 (3 * Second)
                               (Sample.eastern (-1500000000))
                               (mkDB [Sample.job 1 0 "processing" 1]
                                     1 false)) in
  map ScheduledAt (rows d) = ["2024-11-03 01:00:01.5-05:00"] /\
  Format (Sample.eastern (-100000000)) = "2024-11-03 01:59:59.9-04:00" /\
  option_map ID (select_next "jobs" (Format (Sample.eastern (-100000000)))
                             (rows d))
    = Some 1.
Proof. vm_compute. repeat split. Qed.

(** A closed handle makes Dequeue fail with the error of the handle. *)
Example dequeue_on_closed_handle :
  Dequeue Sample.jobs (Sample.utc 5)
          (mkDB [Sample.job 1 0 "pending" 0] 1 true)
  = (inl ErrClosed, mkDB [Sample.job 1 0 "pending" 0] 1 true).
Proof. reflexivity. Qed.

(** The first delays, and the delays past the range of [int64]: at 34
    attempts the product wraps to a negative duration, from 64 attempts on
    the shift gives 0. *)
Example backoff_values :
  backoff 1 = 2 * Second /\ backoff 2 = 4 * Second /\
  backoff 33 = 8589934592 * Second /\
  backoff 34 = -1266874889709551616 /\
  backoff 64 = 0.
Proof. vm_compute. repeat split. Qed.

(** * Further properties of the queue *)

Import Queue.

(** ** Size and Dequeue *)

(** What Dequeue returns was made from a row of the queue that the SELECT
    accepted and that precedes every other row it accepted. *)
Lemma Dequeue_from_eligible (q : LaQueue) (now : Time) (d d' : DB)
    (item : QueueItem) :
  Dequeue q now d = (inr (Some item), d') ->
  exists r,
    In r (rows d) /\ eligible (Queue.queueName q) (Format now) r = true /\
    (forall r', In r' (rows d) ->
                eligible (Queue.queueName q) (Format now) r' = true ->
                precedes r r' = true) /\
    closed d = false /\ item = claimed now r /\
    d' = after_claim q now r d.
Proof.
  intros H. destruct (Dequeue_inv q now d d' item H)
    as (r & Hopen & Hsel & Hitem & Hd).
  destruct (select_next_some _ _ _ _ Hsel) as (Hin & He & Hle).
  exists r. repeat split; assumption.
Qed.

(** The item Dequeue returns belongs to the queue of the handle and passed
    the test of the SELECT: it carries the id, payload, created_at and
    scheduled_at of a row of that queue that was pending and whose
    scheduled_at the store found at or before the time the claim bound; the
    claim adds no row and removes none. *)
Theorem Dequeue_returns_due_item_of_queue (q : LaQueue) (now : Time)
    (d d' : DB) (item : QueueItem) :
  Dequeue q now d = (inr (Some item), d') ->
  QueueName item = queueName q /\
  String.leb (ScheduledAt item) (Format now) = true /\
  List.length (rows d') = List.length (rows d) /\
  exists r,
    In r (rows d) /\ Status r = "pending" /\
    ID item = ID r /\ Payload item = Payload r /\
    CreatedAt item = CreatedAt r /\ ScheduledAt item = ScheduledAt r.
Proof.
  intros H.
  destruct (Dequeue_from_eligible q now d d' item H)
    as (r & Hin & He & _ & _ & -> & ->).
  apply eligible_iff in He. destruct He as (Hq & Hs & Hdue).
  simpl. repeat split; trivial.
  - apply length_map.
  - exists r. repeat split; trivial.
Qed.

Lemma Dequeue_returns_due_item_of_queue_witness :
  QueueName (claimed (Sample.utc 5) (Sample.job 1 3 "pending" 1)) = "jobs" /\
  String.leb (ScheduledAt (claimed (Sample.utc 5)
                                   (Sample.job 1 3 "pending" 1)))
             (Format (Sample.utc 5)) = true /\
  List.length (rows (after_claim Sample.jobs (Sample.utc 5)
                                 (Sample.job 1 3 "pending" 1) Sample.mixed))
  = List.length (rows Sample.mixed) /\
  exists r,
    In r (rows Sample.mixed) /\ Status r = "pending" /\
    ID (claimed (Sample.utc 5) (Sample.job 1 3 "pending" 1)) = ID r /\
    Payload (claimed (Sample.utc 5) (Sample.job 1 3 "pending" 1))
      = Payload r /\
    CreatedAt (claimed (Sample.utc 5) (Sample.job 1 3 "pending" 1))
      = CreatedAt r /\
    ScheduledAt (claimed (Sample.utc 5) (Sample.job 1 3 "pending" 1))
      = ScheduledAt r.
Proof.
  apply (Dequeue_returns_due_item_of_queue
           Sample.jobs (Sample.utc 5) Sample.mixed
           (after_claim Sample.jobs (Sample.utc 5)
                        (Sample.job 1 3 "pending" 1) Sample.mixed)
           (claimed (Sample.utc 5) (Sample.job 1 3 "pending" 1))).
  vm_compute. reflexivity.
Defined.

Lemma Size_open (q : LaQueue) (now : Time) (d : DB) :
  closed d = false ->
  Size q now d
  = (inr (Z.of_nat (List.length
                      (filter (eligible (Queue.queueName q) (Format now))
                              (rows d)))),
     d).
Proof.
  intros H. unfold Size, bind, connect. rewrite H. reflexivity.
Qed.

(** Size leaves the table as it is, and it answers 0 exactly when a Dequeue
    at the same time finds nothing to claim. *)
Theorem Size_zero_iff_Dequeue_empty (q : LaQueue) (now : Time) (d : DB) :
  closed d = false ->
  snd (Size q now d) = d /\
  (fst (Size q now d) = inr 0 <-> Dequeue q now d = (inr None, d)).
Proof.
  intros Hopen. rewrite (Size_open q now d Hopen). simpl.
  split; [reflexivity|]. split.
  - intros H. apply Dequeue_empty; [exact Hopen|].
    unfold select_next.
    destruct (filter (eligible (Queue.queueName q) (Format now)) (rows d));
      [reflexivity|].
    simpl in H. inversion H.
  - intros H.
    destruct (select_next (Queue.queueName q) (Format now) (rows d))
      as [m|] eqn:E.
    + rewrite (Dequeue_item q now d m Hopen E) in H. discriminate.
    + unfold select_next in E. apply first_scheduled_none in E.
      rewrite E. reflexivity.
Qed.

Lemma Size_zero_iff_Dequeue_empty_witness :
  snd (Size Sample.jobs (Sample.utc 2) Sample.mixed) = Sample.mixed /\
  (fst (Size Sample.jobs (Sample.utc 2) Sample.mixed) = inr 0 <->
   Dequeue Sample.jobs (Sample.utc 2) Sample.mixed
   = (inr None, Sample.mixed)).
Proof.
  apply (Size_zero_iff_Dequeue_empty Sample.jobs (Sample.utc 2) Sample.mixed).
  reflexivity.
Defined.

Lemma by_key_self (name : string) (r : QueueItem) :
  QueueName r = name -> by_key (ID r) name r = true.
Proof. intros H. apply by_key_iff. split; [reflexivity | exact H]. Qed.

Lemma set_processing_not_eligible (name : string) (now : string) (t : Time)
    (r : QueueItem) :
  eligible name now (set_processing t r) = false.
Proof.
  unfold eligible, set_processing. simpl.
  rewrite andb_false_r. reflexivity.
Qed.

(** With ids that are unique, rewriting the rows with the key of one
    eligible row takes exactly that row out of the eligible ones. *)
Lemma claim_removes_one (name : string) (now : string) (t : Time)
    (m : QueueItem) (l : list QueueItem) :
  NoDup (map ID l) -> In m l -> eligible name now m = true ->
  S (List.length
       (filter (eligible name now)
               (map (fun r => if by_key (ID m) name r
                              then set_processing t r else r) l)))
  = List.length (filter (eligible name now) l).
Proof.
  intros Hnd Hin He. induction l as [|x l IH]; [destruct Hin|].
  simpl in Hnd. inversion Hnd as [|? ? Hnot Hnd']; subst. simpl.
  destruct Hin as [->|Hin].
  - rewrite by_key_self by (apply eligible_iff in He; tauto).
    rewrite set_processing_not_eligible, He. simpl. f_equal. f_equal.
    f_equal. rewrite <- (map_id l) at 2. apply map_ext_in.
    intros r Hr. replace (by_key (ID m) name r) with false; [reflexivity|].
    symmetry. apply by_key_other. intros Heq. apply Hnot.
    rewrite <- Heq. apply in_map. exact Hr.
  - replace (by_key (ID m) name x) with false.
    + destruct (eligible name now x); simpl; rewrite <- (IH Hnd' Hin);
        reflexivity.
    + symmetry. apply by_key_other. intros Heq. apply Hnot.
      rewrite Heq. apply in_map. exact Hin.
Qed.

(** With ids that are unique, a Dequeue that returns an item lowers the Size
    of its queue, read at the time of the claim, by exactly one. *)
Theorem Dequeue_lowers_Size_by_one (q : LaQueue) (now : Time) (d d' : DB)
    (item : QueueItem) :
  NoDup (map ID (rows d)) ->
  Dequeue q now d = (inr (Some item), d') ->
  exists n,
    fst (Size q now d) = inr n /\ fst (Size q now d') = inr (n - 1) /\
    0 < n.
Proof.
  intros Hnd H.
  destruct (Dequeue_from_eligible q now d d' item H)
    as (r & Hin & He & _ & Hopen & _ & ->).
  rewrite (Size_open q now d Hopen).
  rewrite (Size_open q now (after_claim q now r d)) by exact Hopen.
  simpl.
  rewrite <- (claim_removes_one _ (Format now) now r (rows d) Hnd Hin He).
  eexists. split; [reflexivity|]. split; [f_equal|]; lia.
Qed.

Lemma Dequeue_lowers_Size_by_one_witness :
  exists n,
    fst (Size Sample.jobs (Sample.utc 5) Sample.tied) = inr n /\
    fst (Size Sample.jobs (Sample.utc 5)
              (after_claim Sample.jobs (Sample.utc 5)
                           (Sample.job 1 0 "pending" 0)
                           Sample.tied)) = inr (n - 1) /\
    0 < n.
Proof.
  apply (Dequeue_lowers_Size_by_one
           Sample.jobs (Sample.utc 5) Sample.tied
           (after_claim Sample.jobs (Sample.utc 5)
                        (Sample.job 1 0 "pending" 0) Sample.tied)
           (claimed (Sample.utc 5) (Sample.job 1 0 "pending" 0))).
  - vm_compute. repeat constructor; simpl; intuition discriminate.
  - vm_compute. reflexivity.
Defined.

(** A row of the store a claim leaves behind that is eligible for the queue
    of the claim is a row the claim did not touch: it was in the store
    before, and its id is not the id that was claimed. *)
Lemma eligible_after_claim (q : LaQueue) (now : Time) (now' : string)
    (m : QueueItem) (d : DB) (r : QueueItem) :
  In r (rows (after_claim q now m d)) ->
  eligible (Queue.queueName q) now' r = true ->
  In r (rows d) /\ ID r <> ID m.
Proof.
  simpl. intros Hin He. apply in_map_iff in Hin.
  destruct Hin as (r0 & Hr0 & Hin0).
  destruct (by_key (ID m) (Queue.queueName q) r0) eqn:K.
  - subst r. rewrite set_processing_not_eligible in He. discriminate.
  - subst r0. split; [exact Hin0|].
    intros Heq. apply eligible_iff in He. destruct He as (Hq & _).
    assert (by_key (ID m) (Queue.queueName q) r = true)
      by (apply by_key_iff; split; assumption).
    congruence.
Qed.

(** Two Dequeues on one queue, the second on the store the first left,
    return items with different ids, and the scheduled_at the store holds
    for the first does not sort after the one it holds for the second.  The
    order is that of the stored texts, which is the order of the instants
    only among texts written in one form and zone. *)
Theorem consecutive_claims_in_schedule_order (q : LaQueue)
    (now1 now2 : Time) (d d1 d2 : DB) (item1 item2 : QueueItem) :
  Dequeue q now1 d = (inr (Some item1), d1) ->
  Dequeue q now2 d1 = (inr (Some item2), d2) ->
  ID item1 <> ID item2 /\
  String.leb (ScheduledAt item1) (ScheduledAt item2) = true.
Proof.
  intros H1 H2.
  destruct (Dequeue_from_eligible _ _ _ _ _ H1)
    as (r1 & Hin1 & He1 & Hmin1 & _ & -> & ->).
  destruct (Dequeue_from_eligible _ _ _ _ _ H2)
    as (r2 & Hin2 & He2 & _ & _ & -> & _).
  destruct (eligible_after_claim q now1 (Format now2) r1 d r2 Hin2 He2)
    as [Hin Hid].
  simpl. split; [congruence|].
  destruct (String.leb (ScheduledAt r2) (Format now1)) eqn:C.
  - apply precedes_leb. apply Hmin1; [exact Hin|].
    apply eligible_iff in He2. apply eligible_iff. tauto.
  - apply eligible_iff in He1. destruct He1 as (_ & _ & Hdue1).
    apply leb_false in C.
    exact (leb_trans _ _ _ Hdue1 (ltb_leb _ _ C)).
Qed.

Lemma consecutive_claims_in_schedule_order_witness :
  ID (claimed (Sample.utc 5) (Sample.job 1 0 "pending" 0))
    <> ID (claimed (Sample.utc 6) (Sample.job 2 0 "pending" 0)) /\
  String.leb
    (ScheduledAt (claimed (Sample.utc 5) (Sample.job 1 0 "pending" 0)))
    (ScheduledAt (claimed (Sample.utc 6) (Sample.job 2 0 "pending" 0)))
  = true.
Proof.
  apply (consecutive_claims_in_schedule_order
           Sample.jobs (Sample.utc 5) (Sample.utc 6) Sample.tied
           (after_claim Sample.jobs (Sample.utc 5)
                        (Sample.job 1 0 "pending" 0) Sample.tied)
           (after_claim Sample.jobs (Sample.utc 6)
                        (Sample.job 2 0 "pending" 0)
              (after_claim Sample.jobs (Sample.utc 5)
                           (Sample.job 1 0 "pending" 0) Sample.tied))).
  - vm_compute. reflexivity.
  - vm_compute. reflexivity.
Defined.

(** ** The methods on an open handle *)

Lemma Complete_open (q : LaQueue) (id : Z) (d : DB) :
  closed d = false ->
  Complete q id d
  = (inr tt, snd (update_rows (by_key id (queueName q))
                              (set_status "completed") d)).
Proof. intros H. unfold Complete, bind, connect. rewrite H. reflexivity. Qed.

Lemma Fail_open (q : LaQueue) (id : Z) (d : DB) :
  closed d = false ->
  Fail q id d
  = (inr tt, snd (update_rows (by_key id (queueName q))
                              (set_status "failed") d)).
Proof. intros H. unfold Fail, bind, connect. rewrite H. reflexivity. Qed.

Lemma RetryWithDelay_open (q : LaQueue) (id delay : Z) (now : Time)
    (d : DB) :
  closed d = false ->
  RetryWithDelay q id delay now d
  = (inr tt, snd (update_rows (by_key id (queueName q))
                              (set_retry (Format (Add now delay))) d)).
Proof.
  intros H. unfold RetryWithDelay, bind, connect. rewrite H. reflexivity.
Qed.

Lemma insert_row_inv (name : string) (b : list Byte.byte) (t sch : string)
    (d d1 : DB) (id : Z) :
  insert_row name b t sch d = (inr id, d1) ->
  id = top d + 1 /\
  d1 = mkDB (rows d ++ [mkItem id name b t sch "pending" 0 None])
            id (closed d).
Proof.
  unfold insert_row, top.
  destruct (max_int64 <=? Z.max (seq d) (max_id (rows d)));
    [discriminate|].
  intros H. inversion H. split; reflexivity.
Qed.

Section Lifecycle.

Context {Value : Type} (Marshal : Value -> option (list Byte.byte)).

Lemma Enqueue_inv (q : LaQueue) (v : Value) (t : Z) (d d1 : DB) (id : Z) :
  Enqueue Marshal q v t d = (inr id, d1) ->
  exists b,
    Marshal v = Some b /\ closed d = false /\ id = top d + 1 /\
    d1 = mkDB (rows d ++ [mkItem id (queueName q) b (CURRENT_TIMESTAMP t)
                                 (CURRENT_TIMESTAMP t) "pending" 0 None])
              id (closed d).
Proof.
  unfold Enqueue. destruct (Marshal v) as [b|]; [|discriminate].
  unfold bind, connect. destruct (closed d) eqn:C; [discriminate|].
  intros H. apply insert_row_inv in H. rewrite C in H.
  destruct H as [Hid Hd1]. exists b. repeat split; trivial.
Qed.

Lemma EnqueueWithDelay_inv (q : LaQueue) (v : Value) (delay : Z)
    (now : Time) (t : Z) (d d1 : DB) (id : Z) :
  EnqueueWithDelay Marshal q v delay now t d = (inr id, d1) ->
  exists b,
    Marshal v = Some b /\ closed d = false /\ id = top d + 1 /\
    d1 = mkDB (rows d ++ [mkItem id (queueName q) b (CURRENT_TIMESTAMP t)
                                 (Format (Add now delay)) "pending" 0 None])
              id (closed d).
Proof.
  unfold EnqueueWithDelay. destruct (Marshal v) as [b|]; [|discriminate].
  unfold bind, connect. destruct (closed d) eqn:C; [discriminate|].
  intros H. apply insert_row_inv in H. rewrite C in H.
  destruct H as [Hid Hd1]. exists b. repeat split; trivial.
Qed.

(** *** Ids that were given out *)

Lemma max_id_map (g : QueueItem -> QueueItem) (l : list QueueItem) :
  (forall r, ID (g r) = ID r) -> max_id (map g l) = max_id l.
Proof.
  intros Hg. induction l as [|x l IH]; simpl; [reflexivity|].
  rewrite Hg, IH. reflexivity.
Qed.

Lemma max_id_app_le (l l' : list QueueItem) :
  max_id l <= max_id (l ++ l').
Proof.
  induction l as [|x l IH]; simpl.
  - induction l' as [|y l' IH']; simpl; lia.
  - lia.
Qed.

Lemma top_rewritten (p : QueueItem -> bool) (f : QueueItem -> QueueItem)
    (d : DB) :
  (forall r, ID (f r) = ID r) ->
  top (mkDB (map (fun r => if p r then f r else r) (rows d))
            (seq d) (closed d)) = top d.
Proof.
  intros Hf. unfold top. simpl. rewrite max_id_map; [reflexivity|].
  intros r. destruct (p r); [apply Hf | reflexivity].
Qed.

Lemma top_insert_row (name : string) (b : list Byte.byte) (t sch : string)
    (d : DB) :
  top d <= top (snd (insert_row name b t sch d)).
Proof.
  unfold insert_row. fold (top d). destruct (max_int64 <=? top d); simpl;
    [lia|].
  unfold top at 2. simpl. lia.
Qed.

(** No call lowers the largest id given out. *)
Lemma top_step (o : op) (d : DB) : top d <= top (step Marshal o d).
Proof.
  destruct o as [q v t|q v delay now t|q now|q id|q id|q id delay now|q now];
    simpl.
  - unfold Enqueue. destruct (Marshal v); [|simpl; lia].
    unfold bind, connect. destruct (closed d); [simpl; lia|].
    apply top_insert_row.
  - unfold EnqueueWithDelay. destruct (Marshal v); [|simpl; lia].
    unfold bind, connect. destruct (closed d); [simpl; lia|].
    apply top_insert_row.
  - destruct (closed d) eqn:C.
    + rewrite (Dequeue_closed q now d C). simpl. lia.
    + destruct (select_next (queueName q) (Format now) (rows d))
        as [item|] eqn:E.
      * rewrite (Dequeue_item q now d item C E). cbn [snd].
        unfold after_claim. rewrite top_rewritten; [lia | reflexivity].
      * rewrite (Dequeue_empty q now d C E). simpl. lia.
  - destruct (closed d) eqn:C.
    + unfold Complete, bind, connect. rewrite C. simpl. lia.
    + rewrite (Complete_open q id d C). unfold update_rows. cbn [snd].
      rewrite top_rewritten; [lia | reflexivity].
  - destruct (closed d) eqn:C.
    + unfold Fail, bind, connect. rewrite C. simpl. lia.
    + rewrite (Fail_open q id d C). unfold update_rows. cbn [snd].
      rewrite top_rewritten; [lia | reflexivity].
  - destruct (closed d) eqn:C.
    + unfold RetryWithDelay, bind, connect. rewrite C. simpl. lia.
    + rewrite (RetryWithDelay_open q id delay now d C).
      unfold update_rows. cbn [snd].
      rewrite top_rewritten; [lia | reflexivity].
  - unfold Size, bind, connect. destruct (closed d); simpl; lia.
Qed.

Lemma top_run (ops : list op) (d : DB) : top d <= top (run Marshal ops d).
Proof.
  revert d. induction ops as [|o ops IH]; intros d; simpl; [lia|].
  pose proof (top_step o d). pose proof (IH (step Marshal o d)). lia.
Qed.

(** An Enqueue that succeeds appends one pending row with no attempts,
    created and scheduled at the text of CURRENT_TIMESTAMP, and leaves the
    other rows as they are; its id is larger than every id of the table, and
    whatever calls follow, a later Enqueue returns a larger id still. *)
Theorem Enqueue_ids_fresh_and_increasing (q : LaQueue) (v : Value) (t : Z)
    (d d1 : DB) (id : Z) :
  Enqueue Marshal q v t d = (inr id, d1) ->
  (forall r, In r (rows d) -> ID r < id) /\
  (exists b, Marshal v = Some b /\
             rows d1 = rows d ++
                       [mkItem id (queueName q) b (CURRENT_TIMESTAMP t)
                               (CURRENT_TIMESTAMP t) "pending" 0 None]) /\
  (forall ops q2 v2 t2 id2 d2,
     Enqueue Marshal q2 v2 t2 (run Marshal ops d1) = (inr id2, d2) ->
     id < id2).
Proof.
  intros H. destruct (Enqueue_inv _ _ _ _ _ _ H) as (b & Hm & _ & Hid & Hd1).
  repeat split.
  - intros r Hr. pose proof (max_id_bound _ _ Hr). unfold top in Hid. lia.
  - exists b. split; [exact Hm|]. rewrite Hd1. reflexivity.
  - intros ops q2 v2 t2 id2 d2 H2.
    destruct (Enqueue_inv _ _ _ _ _ _ H2) as (_ & _ & _ & Hid2 & _).
    pose proof (top_run ops d1) as Hmono.
    assert (id <= top d1) by (rewrite Hd1; unfold top; simpl; lia).
    lia.
Qed.

End Lifecycle.

Lemma Enqueue_ids_fresh_and_increasing_witness :
  4 < 5.
Proof.
  apply (proj2 (proj2 (Enqueue_ids_fresh_and_increasing
                         Sample.raw Sample.jobs [Byte.x68]
                         (Sample.instant 7) Sample.mixed
                         (snd (Queue.Enqueue Sample.raw Sample.jobs
                                             [Byte.x68] (Sample.instant 7)
                                             Sample.mixed))
                         4 eq_refl))
               [OpDequeue Sample.jobs (Sample.utc 8); OpFail Sample.jobs 4]
               (Queue.New "mail") [Byte.x69] (Sample.instant 9) 5
               (snd (Queue.Enqueue Sample.raw (Queue.New "mail") [Byte.x69]
                       (Sample.instant 9)
                       (run Sample.raw
                            [OpDequeue Sample.jobs (Sample.utc 8);
                             OpFail Sample.jobs 4]
                            (snd (Queue.Enqueue Sample.raw Sample.jobs
                                                [Byte.x68]
                                                (Sample.instant 7)
                                                Sample.mixed)))))).
  vm_compute. reflexivity.
Defined.

(** ** Items that are out of the pending pool *)

(** A rewrite that keeps id and queue and never writes "pending" for the
    key [(id, name)] keeps [retired]. *)
Lemma retired_rewritten (name : string) (id : Z) (p : QueueItem -> bool)
    (f : QueueItem -> QueueItem) (d : DB) :
  (forall r, ID (f r) = ID r /\ QueueName (f r) = QueueName r) ->
  (forall r, p r = true -> ID r = id -> QueueName r = name ->
             Status (f r) <> "pending") ->
  retired name id d ->
  retired name id (mkDB (map (fun r => if p r then f r else r) (rows d))
                        (seq d) (closed d)).
Proof.
  intros Hkeep Hstatus [Htop Hnot]. split.
  - rewrite top_rewritten; [exact Htop | intros r; apply Hkeep].
  - simpl. intros r Hin Hid Hq. apply in_map_iff in Hin.
    destruct Hin as (r0 & Hr0 & Hin0). destruct (p r0) eqn:P.
    + subst r. destruct (Hkeep r0) as [Hi Hn]. rewrite Hi in Hid.
      rewrite Hn in Hq. exact (Hstatus r0 P Hid Hq).
    + subst r0. exact (Hnot r Hin0 Hid Hq).
Qed.

(** Rewriting the rows of a key with a status other than "pending" retires
    the key, once its id has been given out. *)
Lemma retired_by_rewrite (name : string) (id : Z)
    (f : QueueItem -> QueueItem) (d : DB) :
  (forall r, ID (f r) = ID r /\ QueueName (f r) = QueueName r) ->
  (forall r, Status (f r) <> "pending") ->
  id <= top d ->
  retired name id (mkDB (map (fun r => if by_key id name r then f r else r)
                             (rows d))
                        (seq d) (closed d)).
Proof.
  intros Hkeep Hstatus Htop. split.
  - rewrite top_rewritten; [exact Htop | intros r; apply Hkeep].
  - simpl. intros r Hin Hid Hq. apply in_map_iff in Hin.
    destruct Hin as (r0 & Hr0 & Hin0). destruct (by_key id name r0) eqn:K.
    + subst r. apply Hstatus.
    + subst r0. rewrite (proj2 (by_key_iff id name r) (conj Hid Hq)) in K.
      discriminate.
Qed.

Lemma retired_not_claimed (q : LaQueue) (id : Z) (now : Time) (d d' : DB)
    (item : QueueItem) :
  retired (queueName q) id d ->
  Dequeue q now d = (inr (Some item), d') ->
  ID item <> id.
Proof.
  intros [_ Hnot] H.
  destruct (Dequeue_from_eligible _ _ _ _ _ H)
    as (r & Hin & He & _ & _ & -> & _).
  apply eligible_iff in He. destruct He as (Hq & Hs & _).
  simpl. intros Hid. exact (Hnot r Hin Hid Hq Hs).
Qed.

Section Retirement.

Context {Value : Type} (Marshal : Value -> option (list Byte.byte)).

Lemma retired_insert_row (name name' : string) (id : Z)
    (b : list Byte.byte) (t sch : string) (d : DB) :
  retired name id d ->
  retired name id (snd (insert_row name' b t sch d)).
Proof.
  intros [Htop Hnot]. unfold insert_row. fold (top d).
  destruct (max_int64 <=? top d); cbn [snd]; [split; assumption|].
  split.
  - unfold top in *. simpl. lia.
  - simpl. intros r Hin Hid Hq. apply in_app_or in Hin.
    destruct Hin as [Hin|[<-|[]]]; [exact (Hnot r Hin Hid Hq)|].
    simpl in Hid. lia.
Qed.

(** Every call other than a RetryWithDelay of the key keeps [retired]. *)
Lemma retired_step (name : string) (id : Z) (o : op) (d : DB) :
  is_retry_of name id o = false ->
  retired name id d ->
  retired name id (step Marshal o d).
Proof.
  intros Hno Hret.
  destruct o as [q v t|q v delay now t|q now|q id'|q id'|q id' delay now
                 |q now]; simpl.
  - unfold Enqueue. destruct (Marshal v); [|exact Hret].
    unfold bind, connect. destruct (closed d); [exact Hret|].
    apply retired_insert_row. exact Hret.
  - unfold EnqueueWithDelay. destruct (Marshal v); [|exact Hret].
    unfold bind, connect. destruct (closed d); [exact Hret|].
    apply retired_insert_row. exact Hret.
  - destruct (closed d) eqn:C.
    + rewrite (Dequeue_closed q now d C). exact Hret.
    + destruct (select_next (queueName q) (Format now) (rows d))
        as [item|] eqn:E.
      * rewrite (Dequeue_item q now d item C E). cbn [snd].
        apply retired_rewritten; [split; reflexivity | | exact Hret].
        intros; discriminate.
      * rewrite (Dequeue_empty q now d C E). exact Hret.
  - destruct (closed d) eqn:C.
    + unfold Complete, bind, connect. rewrite C. exact Hret.
    + rewrite (Complete_open q id' d C). unfold update_rows. cbn [snd].
      apply retired_rewritten; [split; reflexivity | | exact Hret].
      intros; discriminate.
  - destruct (closed d) eqn:C.
    + unfold Fail, bind, connect. rewrite C. exact Hret.
    + rewrite (Fail_open q id' d C). unfold update_rows. cbn [snd].
      apply retired_rewritten; [split; reflexivity | | exact Hret].
      intros; discriminate.
  - destruct (closed d) eqn:C.
    + unfold RetryWithDelay, bind, connect. rewrite C. exact Hret.
    + rewrite (RetryWithDelay_open q id' delay now d C).
      unfold update_rows. cbn [snd].
      apply retired_rewritten; [split; reflexivity | | exact Hret].
      intros r K Hid Hq. exfalso. apply by_key_iff in K.
      destruct K as [Kid Kq]. simpl in Hno.
      assert (String.eqb (queueName q) name = true)
        by (apply String.eqb_eq; congruence).
      assert ((id' =? id) = true) by (apply Z.eqb_eq; congruence).
      rewrite H, H0 in Hno. discriminate.
  - unfold Size, bind, connect. destruct (closed d); exact Hret.
Qed.

Lemma retired_run (name : string) (id : Z) (ops : list op) (d : DB) :
  forallb (fun o => negb (is_retry_of name id o)) ops = true ->
  retired name id d ->
  retired name id (run Marshal ops d).
Proof.
  revert d. induction ops as [|o ops IH]; intros d Hno Hret; simpl;
    [exact Hret|].
  simpl in Hno. apply andb_true_iff in Hno. destruct Hno as [Ho Hops].
  apply IH; [exact Hops|]. apply retired_step; [|exact Hret].
  apply negb_true_iff. exact Ho.
Qed.

(** An item that was claimed is not handed out again by a Dequeue on its
    queue, whatever calls are made in between, as long as none of them is a
    RetryWithDelay of that item. *)
Theorem claimed_item_not_claimed_again (q : LaQueue) (now now' : Time)
    (d d' d'' : DB) (item item' : QueueItem) (ops : list op) :
  Dequeue q now d = (inr (Some item), d') ->
  forallb (fun o => negb (is_retry_of (queueName q) (ID item) o)) ops
    = true ->
  Dequeue q now' (run Marshal ops d') = (inr (Some item'), d'') ->
  ID item' <> ID item.
Proof.
  intros H Hno H'.
  apply (retired_not_claimed q (ID item) now' (run Marshal ops d') d'' item');
    [|exact H'].
  apply retired_run; [exact Hno|].
  destruct (Dequeue_from_eligible _ _ _ _ _ H)
    as (r & Hin & _ & _ & _ & -> & ->).
  unfold after_claim. simpl ID.
  apply retired_by_rewrite; [split; reflexivity | intros; discriminate |].
  pose proof (max_id_bound _ _ Hin). unfold top. lia.
Qed.

(** After Complete or Fail of an id that was given out, no Dequeue on the
    queue returns that id, whatever calls are made in between, as long as
    none of them is a RetryWithDelay of it. *)
Theorem finished_item_not_claimed_again (q : LaQueue) (id : Z)
    (now' : Time) (d d' d'' : DB) (item' : QueueItem) (ops : list op) :
  closed d = false ->
  id <= top d ->
  d' = snd (Complete q id d) \/ d' = snd (Fail q id d) ->
  forallb (fun o => negb (is_retry_of (queueName q) id o)) ops = true ->
  Dequeue q now' (run Marshal ops d') = (inr (Some item'), d'') ->
  ID item' <> id.
Proof.
  intros Hopen Htop Hd Hno H'.
  apply (retired_not_claimed q id now' (run Marshal ops d') d'' item');
    [|exact H'].
  apply retired_run; [exact Hno|].
  destruct Hd as [-> | ->].
  - rewrite (Complete_open q id d Hopen). unfold update_rows. cbn [snd].
    apply retired_by_rewrite;
      [split; reflexivity | intros; discriminate | exact Htop].
  - rewrite (Fail_open q id d Hopen). unfold update_rows. cbn [snd].
    apply retired_by_rewrite;
      [split; reflexivity | intros; discriminate | exact Htop].
Qed.

End Retirement.

Lemma claimed_item_not_claimed_again_witness :
  ID (claimed (Sample.utc 6) (Sample.job 2 0 "pending" 0))
  <> ID (claimed (Sample.utc 5) (Sample.job 1 0 "pending" 0)).
Proof.
  apply (claimed_item_not_claimed_again
           Sample.raw Sample.jobs (Sample.utc 5) (Sample.utc 6) Sample.tied
           (after_claim Sample.jobs (Sample.utc 5)
                        (Sample.job 1 0 "pending" 0) Sample.tied)
           (snd (Dequeue Sample.jobs (Sample.utc 6)
                   (run Sample.raw
                        [OpComplete Sample.jobs 1;
                         OpRetryWithDelay Sample.jobs 7 0 (Sample.utc 5)]
                        (after_claim Sample.jobs (Sample.utc 5)
                                     (Sample.job 1 0 "pending" 0)
                                     Sample.tied))))
           (claimed (Sample.utc 5) (Sample.job 1 0 "pending" 0))
           (claimed (Sample.utc 6) (Sample.job 2 0 "pending" 0))
           [OpComplete Sample.jobs 1;
            OpRetryWithDelay Sample.jobs 7 0 (Sample.utc 5)]);
    vm_compute; reflexivity.
Defined.

Lemma finished_item_not_claimed_again_witness :
  ID (claimed (Sample.utc 5) (Sample.job 2 0 "pending" 0)) <> 1.
Proof.
  apply (finished_item_not_claimed_again
           Sample.raw Sample.jobs 1 (Sample.utc 5) Sample.tied
           (snd (Fail Sample.jobs 1 Sample.tied))
           (snd (Dequeue Sample.jobs (Sample.utc 5)
                   (run Sample.raw [OpSize Sample.jobs (Sample.utc 5)]
                        (snd (Fail Sample.jobs 1 Sample.tied)))))
           (claimed (Sample.utc 5) (Sample.job 2 0 "pending" 0))
           [OpSize Sample.jobs (Sample.utc 5)]).
  - reflexivity.
  - vm_compute. discriminate.
  - right. reflexivity.
  - reflexivity.
  - vm_compute. reflexivity.
Defined.

(** ** Delays *)

(** Where the offset of the zone is the same at the time a row is due and at
    the time a Dequeue binds, the store finds the text of the first at or
    before the text of the second only if the instants are in that order. *)
Lemma not_before_due (due now' : Time) :
  String.leb (Format due) (Format now') = true ->
  offset_at now' = offset_at due ->
  0 <= wall_clock now' -> wall_clock due < end_of_years ->
  unix_nano due <= unix_nano now'.
Proof.
  intros Hleb Ho H0 Hend.
  destruct (Z_lt_le_dec (unix_nano now') (unix_nano due)) as [Hlt|Hle];
    [|exact Hle].
  pose proof (Format_lt now' due Ho H0 Hend Hlt) as C.
  unfold String.leb in Hleb. rewrite String.compare_antisym, C in Hleb.
  discriminate.
Qed.

(** RetryWithDelay writes, as the scheduled_at of the rows of its key, the
    text of its clock reading plus the delay.  A Dequeue on the queue
    returns the retried id only if the store finds that text at or before
    the time the Dequeue binds; where the offset of the zone is the same at
    both times, that is only once the delay has passed.  When the store
    finds the text at or before the time of a Dequeue, and the queue has a
    row with that id, the Dequeue returns an item whose scheduled_at does
    not sort after that text. *)
Theorem RetryWithDelay_hides_until_due (q : LaQueue) (id delay : Z)
    (now : Time) (d : DB) :
  closed d = false ->
  let d' := snd (RetryWithDelay q id delay now d) in
  let due := Add now delay in
  (forall now' item' d'',
     Dequeue q now' d' = (inr (Some item'), d'') -> ID item' = id ->
     ScheduledAt item' = Format due /\
     String.leb (Format due) (Format now') = true /\
     (offset_at now' = offset_at due ->
      0 <= wall_clock now' -> wall_clock due < end_of_years ->
      unix_nano now + delay <= unix_nano now')) /\
  (forall now' r,
     In r (rows d) -> ID r = id -> QueueName r = queueName q ->
     String.leb (Format due) (Format now') = true ->
     exists item' d'',
       Dequeue q now' d' = (inr (Some item'), d'') /\
       String.leb (ScheduledAt item') (Format due) = true).
Proof.
  intros Hopen d' due. unfold d'.
  rewrite (RetryWithDelay_open q id delay now d Hopen).
  unfold update_rows. cbn [snd]. fold due. split.
  - intros now' item' d'' H Hid.
    destruct (Dequeue_from_eligible _ _ _ _ _ H)
      as (r' & Hin & He & _ & _ & -> & _).
    simpl in Hin. apply in_map_iff in Hin.
    destruct Hin as (r0 & Hr0 & Hin0).
    apply eligible_iff in He. destruct He as (Hq & _ & Hdue).
    simpl in Hid. destruct (by_key id (queueName q) r0) eqn:K.
    + subst r'. simpl in *. split; [reflexivity|]. split; [exact Hdue|].
      intros Ho H0 Hend.
      exact (not_before_due due now' Hdue Ho H0 Hend).
    + subst r0.
      rewrite (proj2 (by_key_iff id (queueName q) r') (conj Hid Hq)) in K.
      discriminate.
  - intros now' r Hin Hid Hq Hdue.
    set (d1 := mkDB (map (fun r0 => if by_key id (queueName q) r0
                                    then set_retry (Format due) r0 else r0)
                         (rows d)) (seq d) (closed d)).
    assert (Hin1 : In (set_retry (Format due) r) (rows d1)).
    { simpl. apply in_map_iff. exists r. split; [|exact Hin].
      rewrite (proj2 (by_key_iff id (queueName q) r) (conj Hid Hq)).
      reflexivity. }
    assert (He1 : eligible (queueName q) (Format now')
                           (set_retry (Format due) r) = true).
    { apply eligible_iff. simpl. auto. }
    destruct (select_next (queueName q) (Format now') (rows d1))
      as [m|] eqn:E.
    + destruct (select_next_some _ _ _ _ E) as (_ & _ & Hmin).
      exists (claimed now' m), (after_claim q now' m d1). split.
      * apply Dequeue_item; [exact Hopen | exact E].
      * simpl. apply (precedes_leb _ _ (Hmin _ Hin1 He1)).
    + rewrite select_next_none in E. rewrite (E _ Hin1) in He1.
      discriminate.
Qed.

Lemma RetryWithDelay_hides_until_due_witness :
  exists item' d'',
    Dequeue Sample.jobs (Sample.utc 8)
            (snd (RetryWithDelay Sample.jobs 1 Second (Sample.utc 6)
                                 Sample.mixed))
    = (inr (Some item'), d'') /\
    String.leb (ScheduledAt item') (Format (Add (Sample.utc 6) Second))
    = true.
Proof.
  apply (proj2 (RetryWithDelay_hides_until_due
                  Sample.jobs 1 Second (Sample.utc 6) Sample.mixed eq_refl)
               (Sample.utc 8) (Sample.job 1 3 "pending" 1)).
  - left. reflexivity.
  - reflexivity.
  - reflexivity.
  - vm_compute. reflexivity.
Defined.

Section Delayed.

Context {Value : Type} (Marshal : Value -> option (list Byte.byte)).

(** EnqueueWithDelay writes, as the scheduled_at of the new row, the text of
    its clock reading plus the delay.  A Dequeue, on whatever queue, returns
    the new id only if the store finds that text at or before the time the
    Dequeue binds; where the offset of the zone is the same at both times,
    that is only once the delay has passed.  When the store finds the text
    at or before the time of a Dequeue on the queue, the Dequeue returns an
    item whose scheduled_at does not sort after that text. *)
Theorem EnqueueWithDelay_hides_until_due (q : LaQueue) (v : Value)
    (delay : Z) (now : Time) (t : Z) (d d1 : DB) (id : Z) :
  EnqueueWithDelay Marshal q v delay now t d = (inr id, d1) ->
  let due := Add now delay in
  (forall q' now' item' d2,
     Dequeue q' now' d1 = (inr (Some item'), d2) -> ID item' = id ->
     ScheduledAt item' = Format due /\
     String.leb (Format due) (Format now') = true /\
     (offset_at now' = offset_at due ->
      0 <= wall_clock now' -> wall_clock due < end_of_years ->
      unix_nano now + delay <= unix_nano now')) /\
  (forall now',
     String.leb (Format due) (Format now') = true ->
     exists item' d2,
       Dequeue q now' d1 = (inr (Some item'), d2) /\
       String.leb (ScheduledAt item') (Format due) = true).
Proof.
  intros H due.
  destruct (EnqueueWithDelay_inv _ _ _ _ _ _ _ _ _ H)
    as (b & _ & Hopen & Hid & Hd1).
  fold due in Hd1.
  set (row := mkItem id (queueName q) b (CURRENT_TIMESTAMP t) (Format due)
                     "pending" 0 None) in Hd1.
  split.
  - intros q' now' item' d2 H' Hid'.
    destruct (Dequeue_from_eligible _ _ _ _ _ H')
      as (r' & Hin & He & _ & _ & -> & _).
    rewrite Hd1 in Hin. simpl in Hin. apply in_app_or in Hin.
    apply eligible_iff in He. destruct He as (_ & _ & Hdue).
    simpl in Hid'. destruct Hin as [Hin|[<-|[]]].
    + pose proof (max_id_bound _ _ Hin). unfold top in Hid. lia.
    + simpl in *. split; [reflexivity|]. split; [exact Hdue|].
      intros Ho H0 Hend.
      exact (not_before_due due now' Hdue Ho H0 Hend).
  - intros now' Hdue.
    assert (Hin1 : In row (rows d1))
      by (rewrite Hd1; simpl; apply in_or_app; right; left; reflexivity).
    assert (He1 : eligible (queueName q) (Format now') row = true)
      by (apply eligible_iff; simpl; auto).
    assert (Hopen1 : closed d1 = false) by (rewrite Hd1; exact Hopen).
    destruct (select_next (queueName q) (Format now') (rows d1))
      as [m|] eqn:E.
    + destruct (select_next_some _ _ _ _ E) as (_ & _ & Hmin).
      exists (claimed now' m), (after_claim q now' m d1). split.
      * apply Dequeue_item; [exact Hopen1 | exact E].
      * simpl. apply (precedes_leb _ _ (Hmin _ Hin1 He1)).
    + rewrite select_next_none in E. rewrite (E _ Hin1) in He1.
      discriminate.
Qed.

End Delayed.

Lemma EnqueueWithDelay_hides_until_due_witness :
  exists item' d2,
    Dequeue Sample.jobs (Sample.utc 102)
            (snd (Queue.EnqueueWithDelay Sample.raw Sample.jobs []
                                         (2 * Second) (Sample.utc 100)
                                         (Sample.instant 100)
                                         Sample.fresh))
    = (inr (Some item'), d2) /\
    String.leb (ScheduledAt item')
               (Format (Add (Sample.utc 100) (2 * Second))) = true.
Proof.
  apply (proj2 (EnqueueWithDelay_hides_until_due
                  Sample.raw Sample.jobs [] (2 * Second) (Sample.utc 100)
                  (Sample.instant 100) Sample.fresh
                  (snd (Queue.EnqueueWithDelay Sample.raw Sample.jobs []
                                               (2 * Second) (Sample.utc 100)
                                               (Sample.instant 100)
                                               Sample.fresh))
                  1 eq_refl)
               (Sample.utc 102)).
  vm_compute. reflexivity.
Defined.

(** ** A new row seen from a zone west of UTC *)

Section Behind_UTC.

Context {Value : Type} (Marshal : Value -> option (list Byte.byte)).

(** Enqueue leaves scheduled_at to CURRENT_TIMESTAMP, a text in UTC, and
    Dequeue binds the text of the local time.  While the wall clock of the
    process that claims shows less than the UTC second of the insert, as it
    does in a zone west of UTC until the offset has gone by, no Dequeue
    returns the new item, and on a queue with nothing else to claim Dequeue
    returns (nil, nil) and leaves the store as it is. *)
Theorem Enqueue_hidden_behind_UTC (q : LaQueue) (v : Value) (t : Z)
    (d d1 : DB) (id : Z) (now : Time) :
  Enqueue Marshal q v t d = (inr id, d1) ->
  0 <= wall_clock now -> wall_clock now < t / 1000000000 ->
  t / 1000000000 < end_of_years ->
  (forall q' item d2,
     Dequeue q' now d1 = (inr (Some item), d2) -> ID item <> id) /\
  ((forall r, In r (rows d) ->
              eligible (queueName q) (Format now) r = false) ->
   Dequeue q now d1 = (inr None, d1)).
Proof.
  intros Henq H0 Hlt Hend.
  pose proof (CURRENT_TIMESTAMP_after_Format t now H0 Hlt Hend) as Hnot.
  destruct (Enqueue_inv _ _ _ _ _ _ _ Henq) as (b & _ & Hopen & Hid & Hd1).
  split.
  - intros q' item d2 H.
    destruct (Dequeue_from_eligible _ _ _ _ _ H)
      as (r & Hin & He & _ & _ & -> & _).
    rewrite Hd1 in Hin. simpl in Hin. apply in_app_or in Hin.
    apply eligible_iff in He. destruct He as (_ & _ & Hdue). simpl.
    destruct Hin as [Hin|[<-|[]]].
    + pose proof (max_id_bound _ _ Hin). unfold top in Hid. lia.
    + simpl in Hdue. rewrite Hnot in Hdue. discriminate.
  - intros Hnone. apply Dequeue_empty; [rewrite Hd1; exact Hopen|].
    apply select_next_none. rewrite Hd1. simpl. intros r Hin.
    apply in_app_or in Hin. destruct Hin as [Hin|[<-|[]]].
    + exact (Hnone r Hin).
    + unfold eligible. simpl. rewrite Hnot. apply andb_false_r.
Qed.

End Behind_UTC.

Lemma Enqueue_hidden_behind_UTC_witness :
  Dequeue Sample.jobs (Sample.west 11)
          (snd (Queue.Enqueue Sample.raw Sample.jobs [Byte.x68; Byte.x69]
                              (Sample.instant 10) Sample.fresh))
  = (inr None,
     snd (Queue.Enqueue Sample.raw Sample.jobs [Byte.x68; Byte.x69]
                        (Sample.instant 10) Sample.fresh)).
Proof.
  assert (H := Enqueue_hidden_behind_UTC
                 Sample.raw Sample.jobs [Byte.x68; Byte.x69]
                 (Sample.instant 10) Sample.fresh
                 (snd (Queue.Enqueue Sample.raw Sample.jobs
                                     [Byte.x68; Byte.x69]
                                     (Sample.instant 10) Sample.fresh))
                 1 (Sample.west 11)).
  destruct H as [_ H];
    [reflexivity | vm_compute; discriminate | vm_compute; reflexivity
     | vm_compute; reflexivity |].
  apply H. intros r [].
Defined.

(** ** What no call changes *)

Lemma run_unique_ids_witness :
  NoDup (map ID (rows (run Sample.raw
                           [OpEnqueue Sample.jobs [] (Sample.instant 7);
                            OpDequeue Sample.jobs (Sample.utc 8);
                            OpFail Sample.jobs 1;
                            OpEnqueueWithDelay Sample.jobs [] 3 (Sample.utc 9)
                                               (Sample.instant 9)]
                           Sample.mixed))).
Proof.
  apply (run_unique_ids Sample.raw).
  repeat constructor; simpl; intuition discriminate.
Defined.

Section Unchanged.

Context {Value : Type} (Marshal : Value -> option (list Byte.byte)).

Lemma rewritten_at (p : QueueItem -> bool) (f : QueueItem -> QueueItem)
    (l : list QueueItem) (i : nat) (r : QueueItem) :
  (forall x, same_identity x (f x)) ->
  nth_error l i = Some r ->
  exists r1,
    nth_error (map (fun x => if p x then f x else x) l) i = Some r1 /\
    same_identity r r1.
Proof.
  intros Hf H. rewrite (map_nth_error _ _ _ H). eexists.
  split; [reflexivity|].
  destruct (p r); [apply Hf | repeat split].
Qed.

Lemma step_identity (o : op) (d : DB) (i : nat) (r : QueueItem) :
  nth_error (rows d) i = Some r ->
  exists r1,
    nth_error (rows (step Marshal o d)) i = Some r1 /\ same_identity r r1.
Proof.
  intros H.
  assert (Hsame : exists r1, nth_error (rows d) i = Some r1 /\
                             same_identity r r1)
    by (exists r; split; [exact H | repeat split]).
  destruct o as [q v t|q v delay now t|q now|q id|q id|q id delay now|q now];
    simpl.
  - unfold Enqueue. destruct (Marshal v); [|exact Hsame].
    unfold bind, connect. destruct (closed d); [exact Hsame|].
    exists r. rewrite (insert_row_keeps _ _ _ _ _ _ _ H). repeat split.
  - unfold EnqueueWithDelay. destruct (Marshal v); [|exact Hsame].
    unfold bind, connect. destruct (closed d); [exact Hsame|].
    exists r. rewrite (insert_row_keeps _ _ _ _ _ _ _ H). repeat split.
  - destruct (closed d) eqn:C.
    + rewrite (Dequeue_closed q now d C). exact Hsame.
    + destruct (select_next (queueName q) (Format now) (rows d))
        as [item|] eqn:E.
      * rewrite (Dequeue_item q now d item C E). cbn [snd after_claim rows].
        apply rewritten_at; [repeat split | exact H].
      * rewrite (Dequeue_empty q now d C E). exact Hsame.
  - destruct (closed d) eqn:C.
    + unfold Complete, bind, connect. rewrite C. exact Hsame.
    + rewrite (Complete_open q id d C). unfold update_rows.
      cbn [snd rows]. apply rewritten_at; [repeat split | exact H].
  - destruct (closed d) eqn:C.
    + unfold Fail, bind, connect. rewrite C. exact Hsame.
    + rewrite (Fail_open q id d C). unfold update_rows.
      cbn [snd rows]. apply rewritten_at; [repeat split | exact H].
  - destruct (closed d) eqn:C.
    + unfold RetryWithDelay, bind, connect. rewrite C. exact Hsame.
    + rewrite (RetryWithDelay_open q id delay now d C). unfold update_rows.
      cbn [snd rows]. apply rewritten_at; [repeat split | exact H].
  - unfold Size, bind, connect. destruct (closed d); exact Hsame.
Qed.

(** Through any sequence of calls a row stays in the table, at its place,
    with its id, queue name, payload and created_at; no call deletes a row
    or rewrites one of these fields. *)
Theorem rows_keep_identity (ops : list op) (d : DB) (i : nat)
    (r : QueueItem) :
  nth_error (rows d) i = Some r ->
  exists r',
    nth_error (rows (run Marshal ops d)) i = Some r' /\
    ID r' = ID r /\ QueueName r' = QueueName r /\
    Payload r' = Payload r /\ CreatedAt r' = CreatedAt r.
Proof.
  revert d r. induction ops as [|o ops IH]; intros d r H; simpl.
  - exists r. repeat split. exact H.
  - destruct (step_identity o d i r H) as (r1 & H1 & Hi & Hq & Hp & Hc).
    destruct (IH _ _ H1) as (r' & H' & Hi' & Hq' & Hp' & Hc').
    exists r'. repeat split; congruence.
Qed.

(** *** Calls on one queue and the items of another *)

Lemma filter_rewritten (p e : QueueItem -> bool)
    (f : QueueItem -> QueueItem) (l : list QueueItem) :
  (forall r, p r = true -> e r = false /\ e (f r) = false) ->
  filter e (map (fun r => if p r then f r else r) l) = filter e l.
Proof.
  intros H. induction l as [|x l IH]; simpl; [reflexivity|].
  destruct (p x) eqn:P.
  - destruct (H x P) as [H1 H2]. rewrite H1, H2. exact IH.
  - rewrite IH. reflexivity.
Qed.

Lemma other_queue_not_eligible (id : Z) (name name' : string)
    (now : string)
    (f : QueueItem -> QueueItem) (r : QueueItem) :
  name <> name' ->
  (forall x, QueueName (f x) = QueueName x) ->
  by_key id name r = true ->
  eligible name' now r = false /\ eligible name' now (f r) = false.
Proof.
  intros Hne Hf K. apply by_key_iff in K. destruct K as [_ Kq].
  assert (Hq : String.eqb (QueueName r) name' = false)
    by (apply String.eqb_neq; congruence).
  unfold eligible. rewrite Hf, Hq. split; reflexivity.
Qed.

(** A call on one queue does not change which rows of another queue are
    eligible, at any time: what Size counts and what Dequeue selects for the
    other queue are the same before and after the call. *)
Theorem calls_leave_other_queues (o : op) (name : string) (now : string)
    (d : DB) :
  queueName (op_queue o) <> name ->
  filter (eligible name now) (rows (step Marshal o d))
  = filter (eligible name now) (rows d) /\
  select_next name now (rows (step Marshal o d))
  = select_next name now (rows d).
Proof.
  intros Hne.
  assert (Hfilter : filter (eligible name now) (rows (step Marshal o d))
                    = filter (eligible name now) (rows d)).
  { destruct o as [q v t|q v delay now0 t|q now0|q id|q id|q id delay now0
                   |q now0]; simpl in Hne |- *.
    - unfold Enqueue. destruct (Marshal v); [|reflexivity].
      unfold bind, connect. destruct (closed d); [reflexivity|].
      unfold insert_row.
      destruct (max_int64 <=? Z.max (seq d) (max_id (rows d)));
        [reflexivity|].
      cbn [snd rows]. rewrite filter_app. simpl.
      replace (eligible name now _) with false;
        [apply app_nil_r|].
      symmetry. unfold eligible. simpl.
      replace (String.eqb (queueName q) name) with false; [reflexivity|].
      symmetry. apply String.eqb_neq. exact Hne.
    - unfold EnqueueWithDelay. destruct (Marshal v); [|reflexivity].
      unfold bind, connect. destruct (closed d); [reflexivity|].
      unfold insert_row.
      destruct (max_int64 <=? Z.max (seq d) (max_id (rows d)));
        [reflexivity|].
      cbn [snd rows]. rewrite filter_app. simpl.
      replace (eligible name now _) with false;
        [apply app_nil_r|].
      symmetry. unfold eligible. simpl.
      replace (String.eqb (queueName q) name) with false; [reflexivity|].
      symmetry. apply String.eqb_neq. exact Hne.
    - destruct (closed d) eqn:C.
      + rewrite (Dequeue_closed q now0 d C). reflexivity.
      + destruct (select_next (queueName q) (Format now0) (rows d))
          as [item|] eqn:E.
        * rewrite (Dequeue_item q now0 d item C E).
          cbn [snd after_claim rows]. apply filter_rewritten.
          intros r K.
          eapply other_queue_not_eligible;
            [exact Hne | intros; reflexivity | exact K].
        * rewrite (Dequeue_empty q now0 d C E). reflexivity.
    - destruct (closed d) eqn:C.
      + unfold Complete, bind, connect. rewrite C. reflexivity.
      + rewrite (Complete_open q id d C). unfold update_rows.
        cbn [snd rows]. apply filter_rewritten. intros r K.
        eapply other_queue_not_eligible;
            [exact Hne | intros; reflexivity | exact K].
    - destruct (closed d) eqn:C.
      + unfold Fail, bind, connect. rewrite C. reflexivity.
      + rewrite (Fail_open q id d C). unfold update_rows.
        cbn [snd rows]. apply filter_rewritten. intros r K.
        eapply other_queue_not_eligible;
            [exact Hne | intros; reflexivity | exact K].
    - destruct (closed d) eqn:C.
      + unfold RetryWithDelay, bind, connect. rewrite C. reflexivity.
      + rewrite (RetryWithDelay_open q id delay now0 d C).
        unfold update_rows. cbn [snd rows]. apply filter_rewritten.
        intros r K.
        eapply other_queue_not_eligible;
            [exact Hne | intros; reflexivity | exact K].
    - unfold Size, bind, connect. destruct (closed d); reflexivity. }
  split; [exact Hfilter|]. unfold select_next. rewrite Hfilter. reflexivity.
Qed.

End Unchanged.

Lemma rows_keep_identity_witness :
  exists r',
    nth_error (rows (run Sample.raw
                         [OpDequeue Sample.jobs (Sample.utc 5);
                          OpRetryWithDelay Sample.jobs 1 2 (Sample.utc 6);
                          OpDequeue Sample.jobs (Sample.utc 9);
                          OpComplete Sample.jobs 1]
                         Sample.backlog)) 0 = Some r' /\
    ID r' = 1 /\ QueueName r' = "jobs" /\
    Payload r' = [Byte.x61] /\ CreatedAt r' = Sample.stamp 0.
Proof.
  apply (rows_keep_identity
           Sample.raw
           [OpDequeue Sample.jobs (Sample.utc 5);
            OpRetryWithDelay Sample.jobs 1 2 (Sample.utc 6);
            OpDequeue Sample.jobs (Sample.utc 9);
            OpComplete Sample.jobs 1]
           Sample.backlog 0
           (mkItem 1 "jobs" [Byte.x61] (Sample.stamp 0) (Sample.stamp 0)
                   "pending" 0 None)).
  reflexivity.
Defined.

Lemma calls_leave_other_queues_witness :
  filter (eligible "mail" (Format (Sample.utc 5)))
         (rows (step Sample.raw (OpDequeue Sample.jobs (Sample.utc 5))
                     Sample.mixed))
  = filter (eligible "mail" (Format (Sample.utc 5))) (rows Sample.mixed) /\
  select_next "mail" (Format (Sample.utc 5))
              (rows (step Sample.raw (OpDequeue Sample.jobs (Sample.utc 5))
                          Sample.mixed))
  = select_next "mail" (Format (Sample.utc 5)) (rows Sample.mixed).
Proof.
  apply (calls_leave_other_queues
           Sample.raw (OpDequeue Sample.jobs (Sample.utc 5)) "mail"
           (Format (Sample.utc 5)) Sample.mixed).
  discriminate.
Defined.

(** ** Status writes one after the other *)

Lemma rewrite_twice (id : Z) (name : string)
    (f1 f2 : QueueItem -> QueueItem) (l : list QueueItem) :
  (forall r, ID (f1 r) = ID r /\ QueueName (f1 r) = QueueName r) ->
  (forall r, f2 (f1 r) = f2 r) ->
  map (fun r => if by_key id name r then f2 r else r)
      (map (fun r => if by_key id name r then f1 r else r) l)
  = map (fun r => if by_key id name r then f2 r else r) l.
Proof.
  intros Hkeep H21. rewrite map_map. apply map_ext. intros r.
  destruct (by_key id name r) eqn:K; [|rewrite K; reflexivity].
  replace (by_key id name (f1 r)) with true; [apply H21|].
  unfold by_key in *. destruct (Hkeep r) as [-> ->]. symmetry. exact K.
Qed.

(** Of two status writes on the same id of the same queue the later one
    decides: Complete after Fail leaves what Complete alone leaves, and the
    other way round; each is idempotent; RetryWithDelay after Complete or
    Fail leaves what RetryWithDelay alone leaves, so that it puts a finished
    item back among the pending ones.  The same holds for [fail] followed by
    [retryWithDelay] in the TypeScript port, the two calls its worker makes
    on a failure that is retried. *)
Theorem later_status_write_decides (q : LaQueue) (id delay : Z)
    (now : Time) (now_ms : Z) (d : DB) :
  snd (Complete q id (snd (Fail q id d))) = snd (Complete q id d) /\
  snd (Fail q id (snd (Complete q id d))) = snd (Fail q id d) /\
  snd (Complete q id (snd (Complete q id d))) = snd (Complete q id d) /\
  snd (Fail q id (snd (Fail q id d))) = snd (Fail q id d) /\
  snd (RetryWithDelay q id delay now (snd (Complete q id d)))
  = snd (RetryWithDelay q id delay now d) /\
  snd (RetryWithDelay q id delay now (snd (Fail q id d)))
  = snd (RetryWithDelay q id delay now d) /\
  snd (TS.retryWithDelay q id delay now_ms (snd (TS.fail q id d)))
  = snd (TS.retryWithDelay q id delay now_ms d).
Proof.
  unfold Complete, Fail, RetryWithDelay, TS.retryWithDelay, TS.fail,
    bind, connect, update_rows, ret.
  destruct (closed d) eqn:C; cbn [fst snd closed rows seq]; rewrite ?C;
    cbn [fst snd closed rows seq]; [repeat split|].
  repeat split; f_equal;
    apply rewrite_twice; intros; (split; reflexivity) || reflexivity.
Qed.

(** * Further properties of the worker *)

(** ** The backoff at its edges *)

(** Up to 33 attempts the delay is positive and grows with the attempts. *)
Theorem backoff_increasing (a b : Z) :
  0 <= a -> a < b -> b <= 33 -> 0 < backoff a < backoff b.
Proof.
  intros Ha Hab Hb. rewrite !backoff_exact by lia.
  assert (0 < 2 ^ a) by (apply Z.pow_pos_nonneg; lia).
  assert (2 ^ a < 2 ^ b) by (apply Z.pow_lt_mono_r; lia).
  unfold Second. lia.
Qed.

Lemma backoff_increasing_witness : 0 < backoff 1 < backoff 2.
Proof. apply (backoff_increasing 1 2); lia. Defined.

(** From 64 attempts on, and for attempts below zero, the shift count is 64
    or more, the shift gives 0 and the delay is zero: the item is due again
    at once. *)
Theorem backoff_zero_outside_shift_range (a : Z) :
  64 <= a <= max_int64 \/ min_int64 <= a < 0 -> backoff a = 0.
Proof.
  unfold max_int64, min_int64, backoff, mul64, shl64, to_uint.
  change (2 ^ 63) with 9223372036854775808.
  intros H.
  assert (Hcount : 64 <= a mod 2 ^ 64).
  { change (2 ^ 64) with 18446744073709551616. destruct H as [H|H].
    - rewrite Z.mod_small; lia.
    - replace a with (a + 18446744073709551616
                      + (-1) * 18446744073709551616) by lia.
      rewrite Z.mod_add by lia. rewrite Z.mod_small; lia. }
  replace (a mod 2 ^ 64 <? 64) with false
    by (symmetry; apply Z.ltb_ge; exact Hcount).
  reflexivity.
Qed.

Lemma backoff_zero_outside_shift_range_witness : backoff (-1) = 0.
Proof.
  apply (backoff_zero_outside_shift_range (-1)). right.
  unfold min_int64. lia.
Defined.

(** ** One iteration *)

Lemma processNext_idle (w : Worker) (now later : Time) (s : World) :
  closed (store s) = true \/
  (forall r, In r (rows (store s)) ->
             eligible (queueName (queue w)) (Format now) r = false) ->
  processNext w now later s = mkWorld (store s) (calls s ++ [CallDequeue]).
Proof.
  intros H. unfold processNext. destruct (closed (store s)) eqn:C.
  - rewrite (Dequeue_closed _ now _ C). reflexivity.
  - destruct H as [H|H]; [discriminate|].
    rewrite (Dequeue_empty _ now _ C); [reflexivity|].
    apply select_next_none. exact H.
Qed.

(** A worker whose handle is closed, or whose queue has no row that the
    SELECT accepts at any of the times it binds, leaves the store as it is
    over all its iterations: it calls Dequeue once per tick and makes no
    other call, and the handler is not involved. *)
Theorem idle_worker_leaves_store (w : Worker) (ticks : list (Time * Time))
    (s : World) :
  closed (store s) = true \/
  (forall t r, In t ticks -> In r (rows (store s)) ->
               eligible (queueName (queue w)) (Format (fst t)) r = false) ->
  Start w (map (fun t => Tick (fst t) (snd t)) ticks) s
  = mkWorld (store s) (calls s ++ repeat CallDequeue (List.length ticks)).
Proof.
  revert s. induction ticks as [|t ticks IH]; intros s H; simpl.
  - rewrite app_nil_r. destruct s; reflexivity.
  - rewrite (processNext_idle w (fst t) (snd t) s).
    + rewrite IH.
      * simpl. rewrite <- app_assoc. reflexivity.
      * simpl. destruct H as [H|H]; [left; exact H|].
        right. intros t' r Ht' Hr. apply H; [right; exact Ht' | exact Hr].
    + destruct H as [H|H]; [left; exact H|].
      right. intros r Hr. apply H; [left; reflexivity | exact Hr].
Qed.

Lemma idle_worker_leaves_store_witness :
  Start (Worker.New (mkConfig "jobs" 0 0) (fun _ => Some "boom"))
        (map (fun t => Tick (fst t) (snd t))
             [(Sample.utc 1, Sample.utc 1); (Sample.utc 2, Sample.utc 2)])
        (mkWorld Sample.mixed [])
  = mkWorld Sample.mixed ([] ++ repeat CallDequeue 2).
Proof.
  apply (idle_worker_leaves_store
           (Worker.New (mkConfig "jobs" 0 0) (fun _ => Some "boom"))
           [(Sample.utc 1, Sample.utc 1); (Sample.utc 2, Sample.utc 2)]
           (mkWorld Sample.mixed [])).
  right. intros t r [<-|[<-|[]]] [<-|[<-|[<-|[]]]]; vm_compute; reflexivity.
Defined.

(** An iteration leaves no row in processing that was not in processing
    before it: the row it claims is completed, failed or made pending again
    before the iteration ends, and every row that is in processing after the
    iteration is a row of the store before it, unchanged. *)
Theorem iteration_leaves_nothing_in_flight (w : Worker) (now later : Time)
    (s : World) (i : nat) (r' : QueueItem) :
  nth_error (rows (store (processNext w now later s))) i = Some r' ->
  Status r' = "processing" ->
  nth_error (rows (store s)) i = Some r'.
Proof.
  unfold processNext. destruct (closed (store s)) eqn:C.
  { rewrite (Dequeue_closed _ now _ C). simpl. auto. }
  destruct (select_next (queueName (queue w)) (Format now) (rows (store s)))
    as [m|] eqn:E.
  2:{ rewrite (Dequeue_empty _ now _ C E). simpl. auto. }
  rewrite (Dequeue_item _ now _ m C E).
  assert (Hopen : closed (after_claim (queue w) now m (store s)) = false)
    by exact C.
  assert (Hgen : forall f,
    (forall x, ID (f x) = ID x /\ QueueName (f x) = QueueName x /\
               Status (f x) <> "processing") ->
    nth_error
      (map (fun x => if by_key (ID m) (queueName (queue w)) x
                     then f x else x)
           (rows (after_claim (queue w) now m (store s)))) i = Some r' ->
    Status r' = "processing" ->
    nth_error (rows (store s)) i = Some r').
  { intros f Hf Hnth Hst. simpl in Hnth. rewrite !nth_error_map in Hnth.
    destruct (nth_error (rows (store s)) i) as [r|]; [|discriminate].
    simpl in Hnth. injection Hnth as Hr'.
    destruct (by_key (ID m) (queueName (queue w)) r) eqn:K.
    - exfalso.
      change (by_key (ID m) (queueName (queue w)) (set_processing now r))
        with (by_key (ID m) (queueName (queue w)) r) in Hr'.
      rewrite K in Hr'. subst r'.
      destruct (Hf (set_processing now r)) as (_ & _ & Hn).
      exact (Hn Hst).
    - rewrite K in Hr'. rewrite Hr'. reflexivity. }
  simpl ID. simpl Payload.
  destruct (processFunc w (Payload m));
    [destruct (Attempts (claimed now m) >=? maxRetries w)|]; cbn [store].
  - rewrite (Fail_open _ _ _ Hopen). unfold update_rows. cbn [snd rows].
    apply Hgen. intros x. repeat split. discriminate.
  - rewrite (RetryWithDelay_open _ _ _ _ _ Hopen). unfold update_rows.
    cbn [snd rows]. apply Hgen. intros x. repeat split. discriminate.
  - rewrite (Complete_open _ _ _ Hopen). unfold update_rows.
    cbn [snd rows]. apply Hgen. intros x. repeat split. discriminate.
Qed.

Lemma iteration_leaves_nothing_in_flight_witness :
  nth_error (rows (mkDB [Sample.job 1 0 "processing" 1;
                         Sample.job 2 0 "pending" 0] 2 false)) 0
  = Some (Sample.job 1 0 "processing" 1).
Proof.
  apply (iteration_leaves_nothing_in_flight
           (Worker.New (mkConfig "jobs" 0 0) (fun _ => None))
           (Sample.utc 5) (Sample.utc 6)
           (mkWorld (mkDB [Sample.job 1 0 "processing" 1;
                           Sample.job 2 0 "pending" 0] 2 false) [])
           0 (Sample.job 1 0 "processing" 1));
    vm_compute; reflexivity.
Defined.

(** ** From Enqueue to the end of an iteration *)

Lemma in_rewritten (p : QueueItem -> bool) (f : QueueItem -> QueueItem)
    (l : list QueueItem) (r : QueueItem) :
  In r l -> p r = true ->
  In (f r) (map (fun x => if p x then f x else x) l).
Proof.
  intros Hin Hp. apply in_map_iff. exists r. rewrite Hp.
  split; [reflexivity | exact Hin].
Qed.

Section Produce_and_consume.

Context {Value : Type} (Marshal : Value -> option (list Byte.byte)).

(** In a process whose zone is UTC or east of it, a payload enqueued through
    a worker is what an iteration of that worker claims when it starts at
    the same instant or later, provided every other eligible item of the
    queue has a scheduled_at that sorts after the one of the new row.  The
    handler is run on the bytes the payload was encoded to, and the row ends
    the iteration completed when the handler succeeds, failed when it fails
    and the retry ceiling is at most 1, and pending again, scheduled at the
    text of the retry's clock reading plus 2 seconds, otherwise; in each case
    it counts one attempt. *)
Theorem worker_runs_what_it_enqueues (w : Worker) (v : Value)
    (t : Z) (now later : Time) (d d1 : DB) (id : Z) (log : list call) :
  Worker.Enqueue Marshal w v t d = (inr id, d1) ->
  (forall r, In r (rows d) ->
             eligible (queueName (queue w)) (Format now) r = true ->
             String.ltb (CURRENT_TIMESTAMP t) (ScheduledAt r) = true) ->
  0 <= offset_at now ->
  0 <= t -> t <= unix_nano now -> wall_clock now < end_of_years ->
  exists b,
    Marshal v = Some b /\
    let s' := processNext w now later (mkWorld d1 log) in
    let row status scheduled :=
      mkItem id (queueName (queue w)) b (CURRENT_TIMESTAMP t) scheduled
             status 1 (Some (Format now)) in
    match processFunc w b with
    | None =>
        calls s' = log ++ [CallDequeue; CallComplete id] /\
        In (row "completed" (CURRENT_TIMESTAMP t)) (rows (store s'))
    | Some _ =>
        if 1 >=? maxRetries w
        then calls s' = log ++ [CallDequeue; CallFail id] /\
             In (row "failed" (CURRENT_TIMESTAMP t)) (rows (store s'))
        else calls s' = log ++ [CallDequeue;
                                CallRetryWithDelay id (2 * Second)] /\
             In (row "pending" (Format (Add later (2 * Second))))
                (rows (store s'))
    end.
Proof.
  intros Henq Holder Hzone Ht Hle Hend.
  pose proof (CURRENT_TIMESTAMP_leb_Format t now Ht Hle Hzone Hend) as Hdue.
  unfold Worker.Enqueue in Henq.
  destruct (Enqueue_inv _ _ _ _ _ _ _ Henq) as (b & Hm & Hopen & _ & Hd1).
  exists b. split; [exact Hm|].
  set (new := mkItem id (queueName (queue w)) b (CURRENT_TIMESTAMP t)
                     (CURRENT_TIMESTAMP t) "pending" 0 None) in Hd1.
  assert (Hsel : select_next (queueName (queue w)) (Format now) (rows d1)
                 = Some new).
  { rewrite Hd1. unfold select_next. cbn [rows]. rewrite filter_app. simpl.
    replace (eligible (queueName (queue w)) (Format now) new) with true
      by (symmetry; apply eligible_iff; simpl; auto).
    apply first_scheduled_last. intros r Hr.
    apply filter_In in Hr. destruct Hr as [Hr He].
    specialize (Holder r Hr He). unfold precedes. simpl.
    unfold String.ltb in Holder. rewrite String.compare_antisym.
    destruct (String.compare (CURRENT_TIMESTAMP t) (ScheduledAt r));
      (discriminate || reflexivity). }
  assert (Hopen1 : closed d1 = false) by (rewrite Hd1; exact Hopen).
  assert (Hkey : by_key id (queueName (queue w)) new = true)
    by (apply by_key_iff; split; reflexivity).
  assert (Hclaimed : In (set_processing now new)
                        (rows (after_claim (queue w) now new d1))).
  { cbn [after_claim rows]. apply in_rewritten; [|exact Hkey].
    rewrite Hd1. simpl. apply in_or_app. right. left. reflexivity. }
  assert (Hopen2 : closed (after_claim (queue w) now new d1) = false)
    by exact Hopen1.
  cbv zeta. unfold processNext. cbn [store calls].
  rewrite (Dequeue_item _ now d1 new Hopen1 Hsel).
  cbn [claimed Payload ID Attempts new].
  destruct (processFunc w b).
  - change (wrap64 (0 + 1)) with 1.
    destruct (1 >=? maxRetries w); cbn [store calls].
    + split; [rewrite <- app_assoc; reflexivity|].
      rewrite (Fail_open _ _ _ Hopen2). unfold update_rows. cbn [snd rows].
      apply (in_rewritten _ (set_status "failed") _ _ Hclaimed). exact Hkey.
    + split; [rewrite <- app_assoc; reflexivity|].
      rewrite (RetryWithDelay_open _ _ _ _ _ Hopen2). unfold update_rows.
      cbn [snd rows].
      apply (in_rewritten _ (set_retry (Format (Add later (2 * Second))))
                          _ _ Hclaimed).
      exact Hkey.
  - cbn [store calls]. split; [rewrite <- app_assoc; reflexivity|].
    rewrite (Complete_open _ _ _ Hopen2). unfold update_rows. cbn [snd rows].
    apply (in_rewritten _ (set_status "completed") _ _ Hclaimed). exact Hkey.
Qed.

End Produce_and_consume.

Lemma worker_runs_what_it_enqueues_witness :
  exists b,
    Sample.raw [Byte.x68; Byte.x69] = Some b /\
    let s' := processNext (Worker.New (mkConfig "jobs" 0 0) (fun _ => None))
                          (Sample.utc 11) (Sample.utc 12)
                          (mkWorld (snd (Queue.Enqueue Sample.raw Sample.jobs
                                           [Byte.x68; Byte.x69]
                                           (Sample.instant 10)
                                           Sample.fresh)) []) in
    calls s' = [] ++ [CallDequeue; CallComplete 1] /\
    In (mkItem 1 "jobs" b (Sample.stamp 10) (Sample.stamp 10) "completed" 1
               (Some (Format (Sample.utc 11))))
       (rows (store s')).
Proof.
  apply (worker_runs_what_it_enqueues
           Sample.raw (Worker.New (mkConfig "jobs" 0 0) (fun _ => None))
           [Byte.x68; Byte.x69] (Sample.instant 10)
           (Sample.utc 11) (Sample.utc 12) Sample.fresh
           (snd (Queue.Enqueue Sample.raw Sample.jobs [Byte.x68; Byte.x69]
                               (Sample.instant 10) Sample.fresh))
           1 []).
  - reflexivity.
  - intros r [].
  - vm_compute. discriminate.
  - vm_compute. discriminate.
  - vm_compute. discriminate.
  - vm_compute. reflexivity.
Defined.
